(** * SmarterBoard component classifier: a shallow embedding of
      [src/ComponentClassifier.py] and the properties of its pipeline.

    The repository is Python 2 (its module [preprocessing/straighten.py]
    uses [print] statements, and [cv2] had no Python 3 binding when it was
    written), so [/] between an integer ndarray and an [int] is floor
    division.

    Conventions of the embedding:
    - a 2-D ndarray of numbers is a list of rows over [R]; finite float64
      values are idealised as reals, and the three special values a float
      can take (nan, +inf, -inf) are constructors of [npfloat];
    - an ndarray of counts (dtype int64) is a list over [Z];
    - the scale factor of [scale_image] and its products are binary64
      floats with their rounding, since [int] truncates the rounded
      product;
    - a Python exception is the left injection of [result];
    - the class attributes of [FeatureExtraction] and the calls made on the
      scaler and classifier objects live in an explicit [world] that every
      stateful function threads through;
    - third-party routines whose numerics are outside the repository
      (Otsu's threshold, the Gabor convolution, the bicubic resize) are
      fields of interface classes; what the theorems need of them is stated
      as a hypothesis where it is used. *)

From Stdlib Require Import String Bool ZArith Floats Reals Lra Lia List.
Import ListNotations.

Local Open Scope R_scope.

(** ** Exceptions and results *)

Inductive exception : Type :=
| ValueError
| TypeError
| OverflowError
| cv2_error.

Definition result (A : Type) : Type := (exception + A)%type.

Definition ok {A : Type} (a : A) : result A := inr a.
Definition raise {A : Type} (e : exception) : result A := inl e.

Definition rbind {A B : Type} (r : result A) (k : A -> result B) : result B :=
  match r with
  | inl e => inl e
  | inr a => k a
  end.

(** ** Arrays *)

Definition image : Type := list (list R).
Definition bool_image : Type := list (list bool).

(** [img.shape], as (rows, columns). *)
Definition shape {A : Type} (img : list (list A)) : nat * nat :=
  (length img, length (hd [] img)).

(** [img.flatten()] / [img.flat]: row-major order. *)
Definition flatten {A : Type} (img : list (list A)) : list A := concat img.

(** [img[r, c]] for an index inside the array. *)
Definition pixel {A : Type} (img : list (list A)) (r c : nat) : option A :=
  match nth_error img r with
  | Some row => nth_error row c
  | None => None
  end.

(** An array with at least one row and one column, all rows of one width:
    what the spec calls a valid non-degenerate image. *)
Definition non_degenerate {A : Type} (img : list (list A)) : Prop :=
  (0 < length img)%nat /\ (0 < length (hd [] img))%nat /\
  Forall (fun row => length row = length (hd [] img)) img.

(** Every pixel of the array is [v]. *)
Definition flat_image (img : image) (v : R) : Prop :=
  Forall (Forall (fun p => p = v)) img.

(** Elementwise binary operation on two arrays of one shape. *)
Fixpoint zip_with {A B C : Type} (f : A -> B -> C) (xs : list A) (ys : list B)
  : list C :=
  match xs, ys with
  | x :: xs', y :: ys' => f x y :: zip_with f xs' ys'
  | _, _ => []
  end.

(** ** float64 values with their special cases *)

Inductive npfloat : Type :=
| NaN
| PInf
| NInf
| Fin (x : R).

Definition Rsign (x : R) : R :=
  if Rlt_dec 0 x then 1 else if Rlt_dec x 0 then -1 else 0.

(** [np.sign] *)
Definition np_sign (v : npfloat) : npfloat :=
  match v with
  | NaN => NaN
  | PInf => Fin 1
  | NInf => Fin (-1)
  | Fin x => Fin (Rsign x)
  end.

(** [np.abs] *)
Definition np_abs (v : npfloat) : npfloat :=
  match v with
  | NaN => NaN
  | PInf | NInf => PInf
  | Fin x => Fin (Rabs x)
  end.

(** [np.log10]: -inf at zero, nan below zero (numpy warns and goes on). *)
Definition np_log10 (v : npfloat) : npfloat :=
  match v with
  | NaN => NaN
  | PInf => PInf
  | NInf => NaN
  | Fin x =>
      if Rlt_dec 0 x then Fin (ln x / ln 10)
      else if Rlt_dec x 0 then NaN else NInf
  end.

(** Unary minus. *)
Definition np_neg (v : npfloat) : npfloat :=
  match v with
  | NaN => NaN
  | PInf => NInf
  | NInf => PInf
  | Fin x => Fin (- x)
  end.

(** IEEE 754 product: zero times an infinity is nan. *)
Definition np_mul (a b : npfloat) : npfloat :=
  match a, b with
  | NaN, _ | _, NaN => NaN
  | Fin x, Fin y => Fin (x * y)
  | Fin x, PInf | PInf, Fin x =>
      if Rlt_dec 0 x then PInf else if Rlt_dec x 0 then NInf else NaN
  | Fin x, NInf | NInf, Fin x =>
      if Rlt_dec 0 x then NInf else if Rlt_dec x 0 then PInf else NaN
  | PInf, PInf | NInf, NInf => PInf
  | PInf, NInf | NInf, PInf => NInf
  end.

Definition is_finite (v : npfloat) : Prop :=
  match v with
  | Fin _ => True
  | _ => False
  end.

(** A row of the feature matrix, and the matrix. *)
Definition row : Type := list npfloat.
Definition matrix : Type := list row.

(** ** The float arithmetic of [scale_image]

    The scale factor and its products with the reference sides are
    binary64 values with their rounding, since [int] is applied to the
    rounded product: [0.29 * 100] is a little below 29 and [int] gives
    28. *)

(** A Python [int] converted to [float] for a mixed product: the nearest
    double, and [OverflowError] beyond the largest one. *)
Definition float_of_int (z : Z) : result float :=
  let f := SF2Prim (binary_normalize prec emax z 0 false) in
  match Prim2SF f with
  | S754_infinity _ => raise OverflowError
  | _ => ok f
  end.

(** Python's [int] on a float: truncation toward zero; an infinity is an
    [OverflowError], a nan a [ValueError]. *)
Definition python_int (x : float) : result Z :=
  match Prim2SF x with
  | S754_zero _ => ok 0%Z
  | S754_finite s m e =>
      let magnitude := if (0 <=? e)%Z then (Zpos m * 2 ^ e)%Z
                       else (Zpos m / 2 ^ (- e))%Z in
      ok (if s then (- magnitude)%Z else magnitude)
  | S754_infinity _ => raise OverflowError
  | S754_nan => raise ValueError
  end.

(** ** Third-party routines used through their interface *)

(** [skimage.filter]: [threshold_otsu] returns a threshold or raises;
    [gabor_filter image frequency theta bandwidth] returns the real and the
    imaginary response. *)
Class skimage_filter : Type := {
  threshold_otsu : image -> result R;
  gabor_filter : image -> R -> R -> R -> image * image
}.

(** [cv2.resize img (width, height) interpolation=INTER_CUBIC]. *)
Class cv2_imgproc : Type := {
  cv2_resize : image -> Z * Z -> result image
}.

(** *** [np.histogram] with an integer number of equal-width bins *)

Module np.

Definition amin (a : list R) : R := fold_right Rmin (hd 0 a) a.
Definition amax (a : list R) : R := fold_right Rmax (hd 0 a) a.

(** [np.linspace(mn, mx, num, endpoint=True)] for [num >= 2]. *)
Definition linspace (mn mx : R) (num : nat) : list R :=
  map (fun k => mn + INR k * ((mx - mn) / INR (num - 1))) (seq 0 num).

(** The range numpy bins over: the data's extent, (0, 1) for no data,
    widened by a half on both sides when the extent is a single value. *)
Definition hist_range (a : list R) : R * R :=
  let (mn, mx) := match a with
                  | [] => (0, 1)
                  | _ => (amin a, amax a)
                  end in
  if Req_dec_T mn mx then (mn - / 2, mx + / 2) else (mn, mx).

(** Bins are half-open on the right, the last one is closed. *)
Definition in_bin (lo hi : R) (last : bool) (x : R) : bool :=
  if Rle_dec lo x then
    if Rlt_dec x hi then true
    else if last then (if Rle_dec x hi then true else false) else false
  else false.

Definition bin_count (a : list R) (edges : list R) (bins k : nat) : Z :=
  Z.of_nat (length (filter (in_bin (nth k edges 0) (nth (S k) edges 0)
                                   (Nat.eqb (S k) bins)) a)).

(** [np.histogram(a, bins)]: the counts (int64) and the bin edges. *)
Definition histogram (a : list R) (bins : nat) : result (list Z * list R) :=
  match bins with
  | O => raise ValueError
  | S _ =>
      let (mn, mx) := hist_range a in
      let edges := linspace mn mx (bins + 1) in
      ok (map (bin_count a edges bins) (seq 0 bins), edges)
  end.

(** [np.sum(hists, axis=0)] over a first array and the others. *)
Definition sum_axis0 (h : list Z) (hs : list (list Z)) : list Z :=
  fold_left (zip_with Z.add) hs h.

(** [arr / n] on an int64 array and a Python int: floor division. *)
Definition int_div (arr : list Z) (n : Z) : list Z :=
  map (fun s => (s / n)%Z) arr.

(** [np.hstack] of a float row and an integer row: the integers are
    promoted to float64. *)
Definition hstack (a : list npfloat) (b : list Z) : list npfloat :=
  a ++ map (fun z => Fin (IZR z)) b.

End np.

(** *** [skimage.exposure.histogram] of a float image

    On an array of a float dtype [exposure.histogram] is [np.histogram]
    with [nbins] bins and the bin centres in place of the edges; that is
    the branch embedded here.  On an array of an integer dtype it counts
    the occurrences of each value instead and does not look at [nbins];
    the pipeline never takes that branch, since the maps it bins come out
    of [np.sqrt] in [angle_pass_filter] and are float arrays. *)

Module exposure.

Definition bin_centers (edges : list R) : list R :=
  zip_with (fun a b => (a + b) / 2) (removelast edges) (tl edges).

Definition histogram (img : image) (nbins : nat)
  : result (list Z * list R) :=
  rbind (np.histogram (flatten img) nbins)
        (fun he => ok (fst he, bin_centers (snd he))).

End exposure.

(** *** [cv2.moments] of a raster image and [cv2.HuMoments] *)

Module cv2.

Record Moments : Type := {
  m00 : R; m10 : R; m01 : R; m20 : R; m11 : R; m02 : R;
  m30 : R; m21 : R; m12 : R; m03 : R;
  mu20 : R; mu11 : R; mu02 : R; mu30 : R; mu21 : R; mu12 : R; mu03 : R;
  nu20 : R; nu11 : R; nu02 : R; nu30 : R; nu21 : R; nu12 : R; nu03 : R
}.

Definition DBL_EPSILON : R := / 2 ^ 52.

Definition Rsum (l : list R) : R := fold_right Rplus 0 l.

(** The sum over the pixels of [x^p * y^q * img[y, x]], [x] the column
    and [y] the row. *)
Definition row_moment (p : nat) (r : list R) : R :=
  Rsum (map (fun xv => INR (fst xv) ^ p * snd xv)
            (combine (seq 0 (length r)) r)).

Definition spatial_moment (p q : nat) (img : image) : R :=
  Rsum (map (fun yr => INR (fst yr) ^ q * row_moment p (snd yr))
            (combine (seq 0 (length img)) img)).

Definition moments (img : image) : Moments :=
  let m00 := spatial_moment 0 0 img in
  let m10 := spatial_moment 1 0 img in
  let m01 := spatial_moment 0 1 img in
  let m20 := spatial_moment 2 0 img in
  let m11 := spatial_moment 1 1 img in
  let m02 := spatial_moment 0 2 img in
  let m30 := spatial_moment 3 0 img in
  let m21 := spatial_moment 2 1 img in
  let m12 := spatial_moment 1 2 img in
  let m03 := spatial_moment 0 3 img in
  let nonzero := Rlt_dec DBL_EPSILON (Rabs m00) in
  let inv_m00 := if nonzero then 1 / m00 else 0 in
  let cx := if nonzero then m10 * inv_m00 else 0 in
  let cy := if nonzero then m01 * inv_m00 else 0 in
  let mu20 := m20 - m10 * cx in
  let mu11 := m11 - m10 * cy in
  let mu02 := m02 - m01 * cy in
  let mu30 := m30 - cx * (3 * mu20 + cx * m10) in
  let mu21 := m21 - cx * (2 * mu11 + cx * m01) - cy * mu20 in
  let mu12 := m12 - cy * (2 * mu11 + cy * m10) - cx * mu02 in
  let mu03 := m03 - cy * (3 * mu02 + cy * m01) in
  let inv_sqrt_m00 := sqrt (Rabs inv_m00) in
  let s2 := inv_m00 * inv_m00 in
  let s3 := s2 * inv_sqrt_m00 in
  {| m00 := m00; m10 := m10; m01 := m01; m20 := m20; m11 := m11;
     m02 := m02; m30 := m30; m21 := m21; m12 := m12; m03 := m03;
     mu20 := mu20; mu11 := mu11; mu02 := mu02; mu30 := mu30;
     mu21 := mu21; mu12 := mu12; mu03 := mu03;
     nu20 := mu20 * s2; nu11 := mu11 * s2; nu02 := mu02 * s2;
     nu30 := mu30 * s3; nu21 := mu21 * s3; nu12 := mu12 * s3;
     nu03 := mu03 * s3 |}.

(** The seven Hu invariants, as the 7x1 array read in row order. *)
Definition HuMoments (m : Moments) : list R :=
  let t0 := nu30 m + nu12 m in
  let t1 := nu21 m + nu03 m in
  let q0 := t0 * t0 in
  let q1 := t1 * t1 in
  let n4 := 4 * nu11 m in
  let s := nu20 m + nu02 m in
  let d := nu20 m - nu02 m in
  let t0' := t0 * (q0 - 3 * q1) in
  let t1' := t1 * (3 * q0 - q1) in
  let q0' := nu30 m - 3 * nu12 m in
  let q1' := 3 * nu21 m - nu03 m in
  [ s;
    d * d + n4 * nu11 m;
    q0' * q0' + q1' * q1';
    q0 + q1;
    q0' * t0' + q1' * t1';
    d * (q0 - q1) + n4 * t0 * t1;
    q1' * t0' - q0' * t1' ].

End cv2.

(** ** class Preprocessing *)

Module Preprocessing.
Section Preprocessing.

Context {sk : skimage_filter} {cv : cv2_imgproc}.

(** [img < thresh], elementwise. *)
Definition below (thresh : R) (img : image) : bool_image :=
  map (map (fun p => if Rlt_dec p thresh then true else false)) img.

Definition binary_from_thresh (img : image) : result bool_image :=
  rbind (threshold_otsu img) (fun thresh =>
  let binary := below thresh img in
  ok binary).

Definition scale_image (img : image) (scaler : float) (org_dim : Z * Z)
  : result image :=
  let (width, height) := org_dim in
  rbind (float_of_int width) (fun width' =>
  rbind (python_int (scaler * width')%float) (fun output_width =>
  rbind (float_of_int height) (fun height' =>
  rbind (python_int (scaler * height')%float) (fun output_height =>
  cv2_resize img (output_width, output_height))))).

Definition standardize_shape (img : image) : result image :=
  scale_image img 0.25%float (256, 153)%Z.

Definition angle_pass_filter (img : image) (frequency theta bandwidth : R)
  : image :=
  let (real, imag) := gabor_filter img frequency theta bandwidth in
  let mag := zip_with (zip_with (fun re im => sqrt (Rsqr re + Rsqr im)))
                      real imag in
  mag.

Definition frontslash_filter (img : image) (denom freq bandwidth : R)
  : image :=
  let theta := PI * (1 / denom) in
  angle_pass_filter img freq theta bandwidth.

Definition backslash_filter (img : image) (denom freq bandwidth : R)
  : image :=
  let theta := PI * (-1 / denom) in
  angle_pass_filter img freq theta bandwidth.

End Preprocessing.
End Preprocessing.

(** ** The state of the interpreter the pipeline reads and writes *)

(** The class attributes [FeatureExtraction.denom], [.freq] and [.bw]. *)
Record class_attributes : Type := {
  denom : R;
  freq : R;
  bw : R
}.

(** A call made on one of the two objects handed to [predict]. *)
Inductive capability_call : Type :=
| call_transform (X : option matrix)
| call_predict (X : matrix).

Record world : Type := {
  FeatureExtraction_attrs : class_attributes;
  calls : list capability_call
}.

Definition Py (A : Type) : Type := world -> result A * world.

Definition ret {A : Type} (a : A) : Py A := fun w => (ok a, w).

Definition bind {A B : Type} (c : Py A) (k : A -> Py B) : Py B :=
  fun w => match c w with
           | (inl e, w') => (inl e, w')
           | (inr a, w') => k a w'
           end.

Definition lift {A : Type} (r : result A) : Py A := fun w => (r, w).

Definition getattr {A : Type} (field : class_attributes -> A) : Py A :=
  fun w => (ok (field (FeatureExtraction_attrs w)), w).

Definition record_call (c : capability_call) : Py unit :=
  fun w => (ok tt, {| FeatureExtraction_attrs := FeatureExtraction_attrs w;
                      calls := calls w ++ [c] |}).

Notation "x <- c ;; k" := (bind c (fun x => k))
  (at level 61, c at next level, right associativity).
Notation "c ;;; k" := (bind c (fun _ => k))
  (at level 61, right associativity).

(** ** class FeatureExtraction *)

Module FeatureExtraction.

(** The attributes as the class body declares them. *)
Definition declared : class_attributes :=
  {| denom := 4.0; freq := 0.50; bw := 0.80 |}.

Section FeatureExtraction.

Context {sk : skimage_filter}.

(** The loop that collects [hist] for each image. *)
Fixpoint exposure_hists (nbins : nat) (images : list image)
  : result (list (list Z)) :=
  match images with
  | [] => ok []
  | img :: rest =>
      rbind (exposure.histogram img nbins) (fun h =>
      rbind (exposure_hists nbins rest) (fun hists =>
      ok (fst h :: hists)))
  end.

(** [mean_exposure_hist(nbins, *images)] with at least one image, as at
    every call in the repository. *)
Definition mean_exposure_hist (nbins : nat) (img : image)
           (imgs : list image) : result (list Z) :=
  rbind (exposure_hists nbins (img :: imgs)) (fun hists =>
  ok (np.int_div (np.sum_axis0 (hd [] hists) (tl hists))
                 (Z.of_nat (length (img :: imgs))))).

Definition mean_exposure_hist_from_gabor (img : image) (nbins : nat)
  : Py (list Z) :=
  d <- getattr denom ;; f <- getattr freq ;; b <- getattr bw ;;
  let frontslash := Preprocessing.frontslash_filter img d f b in
  d' <- getattr denom ;; f' <- getattr freq ;; b' <- getattr bw ;;
  let backslash := Preprocessing.backslash_filter img d' f' b' in
  lift (mean_exposure_hist nbins frontslash [backslash]).

Definition log_trans (raw : list R) : list npfloat :=
  map (fun v => np_mul (np_neg (np_sign (Fin v)))
                       (np_log10 (np_abs (Fin v)))) raw.

Definition moments_hu (img : image) : list npfloat :=
  let raw := cv2.HuMoments (cv2.moments img) in
  log_trans raw.

Definition moments_nbins (image : image) (nbins : nat) : Py row :=
  let moments := moments_hu image in
  gabor_hist <- mean_exposure_hist_from_gabor image nbins ;;
  ret (np.hstack moments gabor_hist).

End FeatureExtraction.
End FeatureExtraction.

(** ** The helpers of [utils.Utils] *)

Module Utils.

(** Modelled from the spec: [Utils.vStackMatrices] is not among the
    sources; the spec describes it as the vertical stack that appends a
    row to the feature matrix, one row per image in input order.  The
    matrix before the first row is Python's [None]. *)
Definition vStackMatrices (X : option matrix) (new_row : row)
  : option matrix :=
  match X with
  | None => Some [new_row]
  | Some M => Some (M ++ [new_row])
  end.

End Utils.

(** ** class ComponentClassifier *)

(** The objects [predict] receives: anything with a [transform], anything
    with a [predict]. *)
Record Scaler : Type := { transform : option matrix -> result matrix }.
Record Classifier : Type := { clf_predict : matrix -> result (list Z) }.

Module ComponentClassifier.
Section ComponentClassifier.

Context {sk : skimage_filter} {cv : cv2_imgproc}.

(** [Utils.map_label_to_str], the table from class ids to names, which
    is not among the sources. *)
Variable map_label_to_str : Z -> string.

(** [np.array(boolean, dtype='int16')] *)
Definition as_int16 (boolean : bool_image) : image :=
  map (map (fun b : bool => if b then 1 else 0)) boolean.

(** The [for image in images] loop, from the matrix built so far. *)
Fixpoint stack_features (images : list bool_image) (nbins : nat)
         (X : option matrix) : Py (option matrix) :=
  match images with
  | [] => ret X
  | image :: rest =>
      let boolean := image in
      let integer := as_int16 boolean in
      im <- lift (Preprocessing.standardize_shape integer) ;;
      r <- FeatureExtraction.moments_nbins im nbins ;;
      stack_features rest nbins (Utils.vStackMatrices X r)
  end.

Definition predict (images : list bool_image) (clf : Classifier)
           (nbins : nat) (scaler : Scaler) : Py (list string) :=
  X <- stack_features images nbins None ;;
  record_call (call_transform X) ;;;
  X' <- lift (transform scaler X) ;;
  record_call (call_predict X') ;;;
  y_pred <- lift (clf_predict clf X') ;;
  ret (map map_label_to_str y_pred).

End ComponentClassifier.
End ComponentClassifier.

(** ** Implementations of the interfaces for concrete runs

    The theorems below hold for every implementation of the interfaces.
    To run the pipeline on concrete arrays one implementation of each is
    fixed here; each keeps to what its library documents on the inputs it
    is used at. *)

(** A threshold routine that, as [threshold_otsu] does, returns the value
    of an image of a single value (so that no pixel is below it) and
    raises on an array without pixels; on the other images it returns the
    middle of the range, which separates the two values of a two-valued
    image.  The Gabor routine of the instance has a null imaginary
    response. *)
Definition midrange_threshold (img : image) : result R :=
  let a := flatten img in
  match a with
  | [] => raise ValueError
  | first_pixel :: _ =>
      if Req_dec_T (np.amin a) (np.amax a) then ok first_pixel
      else ok ((np.amin a + np.amax a) / 2)
  end.

#[local] Instance reference_skimage : skimage_filter := {|
  threshold_otsu := midrange_threshold;
  gabor_filter := fun img _ _ _ => (img, map (map (fun _ => 0)) img)
|}.

(** Nearest-neighbour resampling to [dsize = (width, height)]; an empty
    source or an empty destination is an error, as in OpenCV. *)
Definition nearest_resize (img : image) (dsize : Z * Z) : result image :=
  let (w, h) := dsize in
  let rows := length img in
  let cols := length (hd [] img) in
  match rows, cols with
  | O, _ | _, O => raise cv2_error
  | _, _ =>
      if ((0 <? w) && (0 <? h))%Z then
        ok (map (fun r =>
                   map (fun c => nth (c * cols / Z.to_nat w)
                                     (nth (r * rows / Z.to_nat h) img []) 0)
                       (seq 0 (Z.to_nat w)))
                (seq 0 (Z.to_nat h)))
      else raise cv2_error
  end.

#[local] Instance reference_cv2 : cv2_imgproc := {|
  cv2_resize := nearest_resize
|}.

(** A scaler that leaves a matrix as it is and rejects [None], and a
    classifier that answers class 0 for every row. *)
Definition identity_scaler : Scaler :=
  {| transform := fun X => match X with
                           | None => raise TypeError
                           | Some M => ok M
                           end |}.

Definition constant_classifier : Classifier :=
  {| clf_predict := fun X => ok (map (fun _ => 0%Z) X) |}.

Definition label_names (label : Z) : string :=
  if (label =? 0)%Z then "resistor"%string else "unknown"%string.

(** The interpreter state right after the module is imported. *)
Definition initial_world : world :=
  {| FeatureExtraction_attrs := FeatureExtraction.declared; calls := [] |}.

(** The state after further capability calls. *)
Definition after_calls (w : world) (cs : list capability_call) : world :=
  {| FeatureExtraction_attrs := FeatureExtraction_attrs w;
     calls := calls w ++ cs |}.

(** The feature row [predict] computes for one image, in a given state. *)
Definition feature_row {sk : skimage_filter} {cv : cv2_imgproc}
           (w : world) (nbins : nat) (image : bool_image) : result row :=
  rbind (Preprocessing.standardize_shape (ComponentClassifier.as_int16 image))
        (fun im => fst (FeatureExtraction.moments_nbins im nbins w)).

(** The state with the class attribute [FeatureExtraction.denom] set to
    another value. *)
Definition with_denom (w : world) (d : R) : world :=
  {| FeatureExtraction_attrs :=
       {| denom := d;
          freq := freq (FeatureExtraction_attrs w);
          bw := bw (FeatureExtraction_attrs w) |};
     calls := calls w |}.

(** The feature rows of a batch in input order, or the exception of the
    first image that has none. *)
Fixpoint feature_rows {sk : skimage_filter} {cv : cv2_imgproc}
         (w : world) (nbins : nat) (images : list bool_image)
  : result (list row) :=
  match images with
  | [] => ok []
  | img :: rest =>
      rbind (feature_row w nbins img) (fun r =>
      rbind (feature_rows w nbins rest) (fun rows =>
      ok (r :: rows)))
  end.

(** A scaler that fails on every input, and a classifier that answers
    one label whatever the matrix. *)
Definition failing_scaler : Scaler :=
  {| transform := fun _ => raise ValueError |}.

Definition single_answer (X' : matrix) : list Z := [0%Z].

Definition one_label_classifier : Classifier :=
  {| clf_predict := fun X' => ok (single_answer X') |}.

(** A scaler that takes the absent matrix for an empty one. *)
Definition matrix_or_empty (X : option matrix) : matrix :=
  match X with
  | Some M => M
  | None => []
  end.

Definition lenient_scaler : Scaler :=
  {| transform := fun X => ok (matrix_or_empty X) |}.

(** ** [preprocessing/straighten.py] *)

Module straighten.

Inductive error : Type :=
| ZeroDivisionError.

(** [darkness(line)] on a 2-D array (the shape is unpacked into two
    names): the nested loops add [line[i, j]] to [dkSum] row by row, and
    the sum is divided by [float(line.size)]; dividing by [float(0)]
    raises.  The running sum is a real here, as it is on a float array
    short of rounding; on an array of a narrow integer dtype numpy's sum
    can wrap, which is not embedded. *)
Definition darkness (line : image) : error + R :=
  let (rows, cols) := shape line in
  let dkSum :=
    fold_left (fun acc i =>
                 fold_left (fun acc' j => acc' + nth j (nth i line []) 0)
                           (seq 0 cols) acc)
              (seq 0 rows) 0 in
  let size := (rows * cols)%nat in
  match size with
  | O => inl ZeroDivisionError
  | S _ => inr (dkSum / INR size)
  end.

End straighten.

(** ** Translations of an image *)




(** Every pixel multiplied by [gain], as between a 0/1 mask and the same
    mask as a 0/255 image. *)
Definition scale_intensity (gain : R) (img : image) : image :=
  map (map (fun p => gain * p)) img.

(** Sums of [index ^ k * weight] over an indexed list, at the indices as
    they are and at the indices plus one. *)
Definition power_sum {A : Type} (wt : A -> R) (k : nat)
           (l : list (nat * A)) : R :=
  cv2.Rsum (map (fun t => INR (fst t) ^ k * wt (snd t)) l).


(** ** Quarter turns and enlargements of an image *)






(** ** [cv2.Laplacian] and [Preprocessing.binary_from_laplacian] *)

Module imgproc.

(** [cv::borderInterpolate(p, len, BORDER_REFLECT_101)], the default
    border, for the positions one step outside the array that a 3x3
    aperture reads: [gfedcb|abcdefgh|gfedcba]. *)
Definition borderInterpolate (p : Z) (len : nat) : nat :=
  if (len =? 1)%nat then 0%nat
  else if (p <? 0)%Z then Z.to_nat (- p)
  else if (Z.of_nat len <=? p)%Z then Z.to_nat (2 * Z.of_nat len - 2 - p)
  else Z.to_nat p.

Definition at_border (img : image) (y x : Z) : R :=
  nth (borderInterpolate x (length (hd [] img)))
      (nth (borderInterpolate y (length img)) img []) 0.

(** [cv2.Laplacian(img, cv2.CV_64F)] with the default [ksize = 1]: the
    aperture [0 1 0; 1 -4 1; 0 1 0]. *)
Definition Laplacian (img : image) : image :=
  map (fun r =>
         map (fun c =>
                let y := Z.of_nat r in
                let x := Z.of_nat c in
                at_border img (y - 1) x + at_border img (y + 1) x
                + at_border img y (x - 1) + at_border img y (x + 1)
                - 4 * at_border img y x)
             (seq 0 (length (hd [] img))))
      (seq 0 (length img)).

End imgproc.

Definition binary_from_laplacian {sk : skimage_filter} (img : image)
  : result bool_image :=
  let laplacian := imgproc.Laplacian img in
  Preprocessing.binary_from_thresh laplacian.

(** The array of [rows] by [cols] zeros. *)
Definition zeros (rows cols : nat) : image := repeat (repeat 0 cols) rows.

(** ** Counting *)



(** Two small ink masks, as a batch for [predict]. *)
Definition two_components : list bool_image :=
  [ [[true; false]; [false; true]]; [[false; true; true]] ].

(** Decide the comparisons of reals a concrete run goes through. *)
Ltac Rdecide_at d :=
  first [ destruct d as [_|?]; [|exfalso; lra]
        | destruct d as [?|_]; [exfalso; lra|] ].

Ltac Rdecide :=
  repeat match goal with
         | |- context [Rmin ?a ?b] =>
             first [ rewrite (Rmin_left a b) by lra
                   | rewrite (Rmin_right a b) by lra ]
         | |- context [Rmax ?a ?b] =>
             first [ rewrite (Rmax_left a b) by lra
                   | rewrite (Rmax_right a b) by lra ]
         | |- context [Rlt_dec ?a ?b] => Rdecide_at (Rlt_dec a b)
         | |- context [Rle_dec ?a ?b] => Rdecide_at (Rle_dec a b)
         | |- context [Req_dec_T ?a ?b] => Rdecide_at (Req_dec_T a b)
         end.

(** * Properties *)

(** ** Preprocessing *)

Section PreprocessingProps.

Context {sk : skimage_filter} {cv : cv2_imgproc}.

Lemma float_of_int_256 : float_of_int 256 = ok 256%float.
Proof. vm_compute. reflexivity. Qed.

Lemma float_of_int_153 : float_of_int 153 = ok 153%float.
Proof. vm_compute. reflexivity. Qed.

Lemma python_int_quarter_256 : python_int (0.25 * 256)%float = ok 64%Z.
Proof. vm_compute. reflexivity. Qed.

Lemma python_int_quarter_153 : python_int (0.25 * 153)%float = ok 38%Z.
Proof. vm_compute. reflexivity. Qed.

(** [int] sees the rounded product: with [0.29], the double
    [0x1.28f5c28f5c28fp-2], and 100 the product is just below 29. *)
Lemma python_int_of_rounded_product :
  python_int (0x1.28f5c28f5c28fp-2 * 100)%float = ok 28%Z.
Proof. vm_compute. reflexivity. Qed.

(** The destination size never depends on the source. *)
Lemma standardize_shape_dsize (img : image) :
  Preprocessing.standardize_shape img = cv2_resize img (64, 38)%Z.
Proof.
  unfold Preprocessing.standardize_shape, Preprocessing.scale_image.
  rewrite float_of_int_256. cbn [rbind ok].
  rewrite python_int_quarter_256. cbn [rbind ok].
  rewrite float_of_int_153. cbn [rbind ok].
  rewrite python_int_quarter_153. reflexivity.
Qed.

Lemma below_pixel (t : R) (img : image) (r c : nat) :
  pixel (Preprocessing.below t img) r c =
  option_map (fun p => if Rlt_dec p t then true else false) (pixel img r c).
Proof.
  unfold pixel, Preprocessing.below.
  rewrite nth_error_map.
  destruct (nth_error img r) as [line|]; simpl; [|reflexivity].
  rewrite nth_error_map. reflexivity.
Qed.

Lemma below_flat (t v : R) (img : image) :
  flat_image img v ->
  Preprocessing.below t img =
  map (map (fun _ => if Rlt_dec v t then true else false)) img.
Proof.
  unfold flat_image, Preprocessing.below. intros Hflat.
  apply map_ext_in. intros line Hin.
  rewrite Forall_forall in Hflat. specialize (Hflat line Hin).
  apply map_ext_in. intros p Hp.
  rewrite Forall_forall in Hflat. rewrite (Hflat p Hp). reflexivity.
Qed.

End PreprocessingProps.

Lemma nearest_resize_shape (src : image) (w h : Z) :
  non_degenerate src -> (0 < w)%Z -> (0 < h)%Z ->
  exists dst, nearest_resize src (w, h) = ok dst /\
              shape dst = (Z.to_nat h, Z.to_nat w).
Proof.
  intros (Hrows & Hcols & _) Hw Hh. unfold nearest_resize.
  destruct (length src) as [|rows] eqn:Er; [lia|].
  destruct (length (hd [] src)) as [|cols] eqn:Ec; [lia|].
  apply Z.ltb_lt in Hw as Hw'. apply Z.ltb_lt in Hh as Hh'.
  rewrite Hw', Hh'. simpl andb. cbv iota.
  eexists. split; [reflexivity|].
  unfold shape. rewrite length_map, length_seq. f_equal.
  destruct (Z.to_nat h) as [|h'] eqn:Eh; [lia|].
  simpl. rewrite length_map, length_seq. reflexivity.
Qed.

Lemma checkerboard_non_degenerate : non_degenerate [[0; 1]; [1; 0]].
Proof.
  unfold non_degenerate. simpl.
  repeat split; auto using Nat.lt_0_succ.
Qed.

(** C3. For every non-degenerate image, whatever its size,
    [standardize_shape] asks the resize for the destination (64, 38),
    computed from the factor 0.25 and the reference (256, 153) alone, and
    returns an array of 38 rows and 64 columns (width 64, height 38). *)
Theorem standardize_shape_is_64_by_38 {cv : cv2_imgproc}
  (resize_contract :
     forall (src : image) (w h : Z),
       non_degenerate src -> (0 < w)%Z -> (0 < h)%Z ->
       exists dst, cv2_resize src (w, h) = ok dst /\
                   shape dst = (Z.to_nat h, Z.to_nat w))
  (img : image) (Hvalid : non_degenerate img) :
  Preprocessing.standardize_shape img = cv2_resize img (64, 38)%Z /\
  exists out, Preprocessing.standardize_shape img = ok out /\
              shape out = (38%nat, 64%nat).
Proof.
  split; [apply standardize_shape_dsize|].
  rewrite standardize_shape_dsize.
  destruct (resize_contract img 64%Z 38%Z Hvalid) as (dst & Hdst & Hshape);
    [reflexivity | reflexivity |].
  exists dst. split; [exact Hdst|]. rewrite Hshape. reflexivity.
Qed.

Lemma standardize_shape_is_64_by_38_witness :
  non_degenerate [[0; 1]; [1; 0]] /\
  exists out,
    Preprocessing.standardize_shape (cv := reference_cv2) [[0; 1]; [1; 0]]
    = ok out /\ shape out = (38%nat, 64%nat).
Proof.
  split; [exact checkerboard_non_degenerate|].
  exact (proj2 (standardize_shape_is_64_by_38 (cv := reference_cv2)
                  nearest_resize_shape [[0; 1]; [1; 0]]
                  checkerboard_non_degenerate)).
Defined.

(** C10. Whenever Otsu's routine yields a threshold for the image, as it
    does on every image of more than one value, the mask has the image's
    shape and is true exactly at the pixels strictly below the threshold:
    a pixel equal to the threshold is not ink. *)
Theorem binary_from_thresh_strictly_below {sk : skimage_filter}
  (img : image) (t : R) (Hotsu : threshold_otsu img = ok t) :
  exists mask,
    Preprocessing.binary_from_thresh img = ok mask /\
    shape mask = shape img /\
    forall r c p, pixel img r c = Some p ->
      (p < t -> pixel mask r c = Some true) /\
      (t <= p -> pixel mask r c = Some false).
Proof.
  exists (Preprocessing.below t img). split; [|split].
  - unfold Preprocessing.binary_from_thresh. rewrite Hotsu. reflexivity.
  - unfold shape, Preprocessing.below. rewrite length_map.
    destruct img as [|line rest]; simpl; [reflexivity|].
    rewrite length_map. reflexivity.
  - intros r c p Hp. rewrite below_pixel, Hp. simpl.
    split; intros Hcmp; destruct (Rlt_dec p t); auto; lra.
Qed.

Lemma midrange_threshold_checkerboard :
  midrange_threshold [[0; 1]; [1; 0]] = ok (1 / 2).
Proof.
  unfold midrange_threshold, flatten, np.amin, np.amax. simpl.
  Rdecide. f_equal. lra.
Qed.

Lemma binary_from_thresh_strictly_below_witness :
  threshold_otsu (skimage_filter := reference_skimage) [[0; 1]; [1; 0]]
  = ok (1 / 2) /\
  exists mask,
    Preprocessing.binary_from_thresh (sk := reference_skimage)
                                     [[0; 1]; [1; 0]] = ok mask /\
    shape mask = (2%nat, 2%nat) /\
    forall r c p, pixel [[0; 1]; [1; 0]] r c = Some p ->
      (p < 1 / 2 -> pixel mask r c = Some true) /\
      (1 / 2 <= p -> pixel mask r c = Some false).
Proof.
  split; [exact midrange_threshold_checkerboard|].
  exact (binary_from_thresh_strictly_below (sk := reference_skimage)
           [[0; 1]; [1; 0]] (1 / 2) midrange_threshold_checkerboard).
Defined.

(** What [binary_from_thresh] does on a flat image is decided by the
    threshold routine alone: its exception is passed on unchanged, and a
    threshold gives a uniform mask, all false when the threshold is at
    most the image's value and all true when it is above. *)
Lemma binary_from_thresh_flat_follows_otsu {sk : skimage_filter}
  (img : image) (v : R) (Hflat : flat_image img v) :
  (forall e, threshold_otsu img = raise e ->
             Preprocessing.binary_from_thresh img = raise e) /\
  (forall t, threshold_otsu img = ok t -> t <= v ->
             Preprocessing.binary_from_thresh img
             = ok (map (map (fun _ => false)) img)) /\
  (forall t, threshold_otsu img = ok t -> v < t ->
             Preprocessing.binary_from_thresh img
             = ok (map (map (fun _ => true)) img)).
Proof.
  unfold Preprocessing.binary_from_thresh.
  split; [|split].
  - intros e He. rewrite He. reflexivity.
  - intros t Ht Hle. rewrite Ht. simpl. rewrite (below_flat t v img Hflat).
    destruct (Rlt_dec v t); [lra | reflexivity].
  - intros t Ht Hlt. rewrite Ht. simpl. rewrite (below_flat t v img Hflat).
    destruct (Rlt_dec v t); [reflexivity | lra].
Qed.



Lemma uniform_five_flat : flat_image [[5; 5]; [5; 5]] 5.
Proof. unfold flat_image. repeat constructor. Qed.

Lemma uniform_five_non_degenerate : non_degenerate [[5; 5]; [5; 5]].
Proof. unfold non_degenerate. simpl. repeat constructor. Qed.






(** ** FeatureExtraction *)

Lemma zip_with_length {A B C : Type} (f : A -> B -> C) (xs : list A)
      (ys : list B) :
  length (zip_with f xs ys) = Nat.min (length xs) (length ys).
Proof.
  revert ys. induction xs as [|x xs IH]; intros [|y ys]; simpl; auto.
Qed.

Lemma sum_axis0_length (n : nat) (hs : list (list Z)) (h : list Z) :
  length h = n -> Forall (fun h' => length h' = n) hs ->
  length (np.sum_axis0 h hs) = n.
Proof.
  unfold np.sum_axis0. revert h.
  induction hs as [|h' hs IH]; intros h Hh Hall; simpl; [exact Hh|].
  inversion Hall as [|? ? Hh' Hrest]; subst.
  apply IH; [|exact Hrest].
  rewrite zip_with_length, Hh'. apply Nat.min_id.
Qed.

Lemma np_histogram_ok (a : list R) (bins : nat) :
  (1 <= bins)%nat ->
  exists counts edges,
    np.histogram a bins = ok (counts, edges) /\ length counts = bins.
Proof.
  intros Hbins. destruct bins as [|b]; [lia|].
  unfold np.histogram. destruct (np.hist_range a) as [mn mx].
  eexists. eexists. split; [reflexivity|].
  rewrite length_map, length_seq. reflexivity.
Qed.

Lemma exposure_histogram_ok (img : image) (nbins : nat) :
  (1 <= nbins)%nat ->
  exists hist centers,
    exposure.histogram img nbins = ok (hist, centers) /\
    length hist = nbins.
Proof.
  intros Hbins. unfold exposure.histogram.
  destruct (np_histogram_ok (flatten img) nbins Hbins)
    as (counts & edges & Hh & Hlen).
  rewrite Hh. simpl. eexists. eexists. split; [reflexivity | exact Hlen].
Qed.

Lemma exposure_histogram_zero_bins (img : image) :
  exposure.histogram img 0 = raise ValueError.
Proof. reflexivity. Qed.

Lemma exposure_hists_ok (nbins : nat) (images : list image) :
  (1 <= nbins)%nat ->
  exists hists,
    FeatureExtraction.exposure_hists nbins images = ok hists /\
    length hists = length images /\
    Forall (fun h => length h = nbins) hists.
Proof.
  intros Hbins. induction images as [|img rest IH]; simpl.
  - exists []. repeat split; constructor.
  - destruct (exposure_histogram_ok img nbins Hbins)
      as (hist & centers & Hh & Hlen).
    destruct IH as (hists & Hrest & Hcount & Hall).
    rewrite Hh. simpl. rewrite Hrest. simpl.
    exists (hist :: hists). repeat split; simpl; auto.
Qed.

Lemma mean_exposure_hist_ok (nbins : nat) (img : image)
      (imgs : list image) :
  (1 <= nbins)%nat ->
  exists mean,
    FeatureExtraction.mean_exposure_hist nbins img imgs = ok mean /\
    length mean = nbins.
Proof.
  intros Hbins. unfold FeatureExtraction.mean_exposure_hist.
  destruct (exposure_hists_ok nbins (img :: imgs) Hbins)
    as (hists & Hh & Hcount & Hall).
  rewrite Hh. simpl rbind. eexists. split; [reflexivity|].
  unfold np.int_div. rewrite length_map.
  destruct hists as [|h hs]; [discriminate Hcount|].
  inversion Hall as [|? ? Hfirst Hrest]. simpl hd. simpl tl.
  apply sum_axis0_length; assumption.
Qed.

Lemma log_trans_length (raw : list R) :
  length (FeatureExtraction.log_trans raw) = length raw.
Proof. unfold FeatureExtraction.log_trans. apply length_map. Qed.

Lemma moments_hu_length (img : image) :
  length (FeatureExtraction.moments_hu img) = 7%nat.
Proof.
  unfold FeatureExtraction.moments_hu. rewrite log_trans_length.
  reflexivity.
Qed.

Section FeatureExtractionProps.

Context {sk : skimage_filter}.

(** What a call of [mean_exposure_hist_from_gabor] amounts to: the two
    responses are taken with the attributes the class holds at the time of
    the call, and the state is left as it was. *)
Lemma mean_exposure_hist_from_gabor_run (img : image) (nbins : nat)
      (w : world) :
  FeatureExtraction.mean_exposure_hist_from_gabor img nbins w =
  (let a := FeatureExtraction_attrs w in
   FeatureExtraction.mean_exposure_hist nbins
     (Preprocessing.frontslash_filter img (denom a) (freq a) (bw a))
     [Preprocessing.backslash_filter img (denom a) (freq a) (bw a)],
   w).
Proof. reflexivity. Qed.

Lemma moments_nbins_run (img : image) (nbins : nat) (w : world) :
  FeatureExtraction.moments_nbins img nbins w =
  (match fst (FeatureExtraction.mean_exposure_hist_from_gabor img nbins w)
   with
   | inl e => inl e
   | inr gabor_hist =>
       ok (np.hstack (FeatureExtraction.moments_hu img) gabor_hist)
   end, w).
Proof.
  unfold FeatureExtraction.moments_nbins, bind.
  rewrite mean_exposure_hist_from_gabor_run. cbv zeta. simpl fst.
  destruct (FeatureExtraction.mean_exposure_hist nbins _ _); reflexivity.
Qed.

Lemma moments_nbins_world (img : image) (nbins : nat) (w : world) :
  snd (FeatureExtraction.moments_nbins img nbins w) = w.
Proof. rewrite moments_nbins_run. reflexivity. Qed.

Lemma moments_nbins_ok (img : image) (nbins : nat) (w : world) :
  (1 <= nbins)%nat ->
  exists features,
    FeatureExtraction.moments_nbins img nbins w = (ok features, w) /\
    length features = (7 + nbins)%nat.
Proof.
  intros Hbins. rewrite moments_nbins_run.
  rewrite mean_exposure_hist_from_gabor_run. cbv zeta. simpl fst.
  destruct (mean_exposure_hist_ok nbins
              (Preprocessing.frontslash_filter img
                 (denom (FeatureExtraction_attrs w))
                 (freq (FeatureExtraction_attrs w))
                 (bw (FeatureExtraction_attrs w)))
              [Preprocessing.backslash_filter img
                 (denom (FeatureExtraction_attrs w))
                 (freq (FeatureExtraction_attrs w))
                 (bw (FeatureExtraction_attrs w))] Hbins)
    as (mean & Hmean & Hlen).
  rewrite Hmean. eexists. split; [reflexivity|].
  unfold np.hstack. rewrite length_app, length_map, moments_hu_length, Hlen.
  reflexivity.
Qed.

End FeatureExtractionProps.

(** C2, as the code has it.  For every image, of any resolution, and
    every number of bins [nbins >= 1], [moments_nbins] returns a feature
    vector of length exactly [7 + nbins], the seven log-transformed Hu
    moments followed by the [nbins] bins of the texture histogram, and
    leaves the state untouched; with 16 bins that length is 23. *)
Theorem moments_nbins_length {sk : skimage_filter}
  (img : image) (nbins : nat) (w : world) (Hbins : (1 <= nbins)%nat) :
  exists features,
    FeatureExtraction.moments_nbins img nbins w = (ok features, w) /\
    length features = (7 + nbins)%nat /\
    firstn 7 features = FeatureExtraction.moments_hu img /\
    length (skipn 7 features) = nbins.
Proof.
  rewrite moments_nbins_run, mean_exposure_hist_from_gabor_run.
  cbv zeta. simpl fst.
  set (a := FeatureExtraction_attrs w).
  destruct (mean_exposure_hist_ok nbins
              (Preprocessing.frontslash_filter img (denom a) (freq a) (bw a))
              [Preprocessing.backslash_filter img (denom a) (freq a) (bw a)]
              Hbins)
    as (mean & Hmean & Hlen).
  rewrite Hmean.
  exists (np.hstack (FeatureExtraction.moments_hu img) mean).
  pose proof (moments_hu_length img) as Hhu.
  unfold np.hstack. split; [reflexivity|]. split; [|split].
  - rewrite length_app, length_map, Hhu, Hlen. reflexivity.
  - rewrite <- Hhu at 1. rewrite firstn_app, Nat.sub_diag, firstn_all.
    rewrite firstn_O. apply app_nil_r.
  - rewrite <- Hhu at 1. rewrite skipn_app, Nat.sub_diag, skipn_all.
    cbn [skipn app]. rewrite length_map. exact Hlen.
Qed.

Lemma moments_nbins_length_witness :
  (1 <= 16)%nat /\
  exists features,
    FeatureExtraction.moments_nbins (sk := reference_skimage)
      [[0; 1]; [1; 0]] 16 initial_world = (ok features, initial_world) /\
    length features = 23%nat /\
    firstn 7 features = FeatureExtraction.moments_hu [[0; 1]; [1; 0]] /\
    length (skipn 7 features) = 16%nat.
Proof.
  split; [exact (Nat.lt_0_succ 15)|].
  exact (moments_nbins_length (sk := reference_skimage)
           [[0; 1]; [1; 0]] 16 initial_world (Nat.lt_0_succ 15)).
Defined.

(** C2, as the spec words it, fails twice.  With [nbins = 16] the vector
    [moments_nbins] returns has 7 + 16 = 23 entries, not 39; and with
    [nbins = 0] the histogram rejects the request for no bins, so that
    [moments_nbins] raises [ValueError] and returns no vector at all. *)
Lemma moments_nbins_16_bins_is_not_39 :
  (forall features,
      FeatureExtraction.moments_nbins (sk := reference_skimage)
        [[0; 1]; [1; 0]] 16 initial_world = (ok features, initial_world) ->
      length features = 23%nat /\ length features <> 39%nat) /\
  (exists features,
      FeatureExtraction.moments_nbins (sk := reference_skimage)
        [[0; 1]; [1; 0]] 16 initial_world = (ok features, initial_world)) /\
  FeatureExtraction.moments_nbins (sk := reference_skimage)
    [[0; 1]; [1; 0]] 0 initial_world = (raise ValueError, initial_world).
Proof.
  destruct (moments_nbins_ok (sk := reference_skimage)
              [[0; 1]; [1; 0]] 16 initial_world (Nat.lt_0_succ 15))
    as (features & Hrun & Hlen).
  split; [|split].
  - intros features' Hrun'. rewrite Hrun in Hrun'.
    injection Hrun' as Heq. subst features'.
    rewrite Hlen. split; [reflexivity | discriminate].
  - exists features. exact Hrun.
  - reflexivity.
Qed.

(** C9. Two calls of [moments_nbins] in a row on the same image and the
    same [nbins] return the same result, and neither call changes the
    state the other one reads. *)
Theorem moments_nbins_deterministic {sk : skimage_filter}
  (img : image) (nbins : nat) (w : world) :
  let first := FeatureExtraction.moments_nbins img nbins w in
  let second := FeatureExtraction.moments_nbins img nbins (snd first) in
  fst second = fst first /\ snd first = w /\ snd second = w.
Proof.
  cbv zeta. rewrite !moments_nbins_world. repeat split.
Qed.

(** *** The log transform of the Hu moments *)

Lemma Rsign_zero : Rsign 0 = 0.
Proof. unfold Rsign. Rdecide. reflexivity. Qed.

(** One component of [-np.sign(raw) * np.log10(np.abs(raw))]. *)
Lemma log_trans_component (v : R) :
  np_mul (np_neg (np_sign (Fin v))) (np_log10 (np_abs (Fin v))) =
  if Req_dec_T v 0 then NaN
  else Fin (- Rsign v * (ln (Rabs v) / ln 10)).
Proof.
  simpl. destruct (Req_dec_T v 0) as [Hz|Hnz].
  - subst v. rewrite Rabs_R0, Rsign_zero.
    destruct (Rlt_dec 0 0) as [Hlt|_]; [lra|].
    simpl. destruct (Rlt_dec 0 (- 0)) as [Hlt|_]; [lra|].
    destruct (Rlt_dec (- 0) 0) as [Hlt|_]; [lra|]. reflexivity.
  - pose proof (Rabs_pos_lt v Hnz) as Hpos.
    destruct (Rlt_dec 0 (Rabs v)) as [_|Hn]; [|contradiction].
    reflexivity.
Qed.

Lemma Rsum_zero (l : list R) :
  Forall (fun x => x = 0) l -> cv2.Rsum l = 0.
Proof.
  unfold cv2.Rsum. induction 1 as [|x l Hx _ IH]; simpl; [reflexivity|].
  rewrite Hx, IH. lra.
Qed.

Lemma row_moment_blank (p : nat) (r : list R) :
  Forall (fun v => v = 0) r -> cv2.row_moment p r = 0.
Proof.
  intros Hr. unfold cv2.row_moment. apply Rsum_zero.
  rewrite Forall_forall. intros x Hx.
  apply in_map_iff in Hx as ((k & v) & Hval & Hin). subst x. simpl.
  apply in_combine_r in Hin. rewrite Forall_forall in Hr.
  rewrite (Hr v Hin). ring.
Qed.

Lemma spatial_moment_blank (p q : nat) (img : image) :
  flat_image img 0 -> cv2.spatial_moment p q img = 0.
Proof.
  intros Hflat. unfold cv2.spatial_moment. apply Rsum_zero.
  rewrite Forall_forall. intros x Hx.
  apply in_map_iff in Hx as ((k & r) & Hval & Hin). subst x. simpl.
  apply in_combine_r in Hin. unfold flat_image in Hflat.
  rewrite Forall_forall in Hflat.
  rewrite (row_moment_blank p r (Hflat r Hin)). ring.
Qed.

(** An image without ink has seven raw Hu moments equal to zero. *)
Lemma HuMoments_blank (img : image) :
  flat_image img 0 ->
  cv2.HuMoments (cv2.moments img) = [0; 0; 0; 0; 0; 0; 0].
Proof.
  intros Hflat. unfold cv2.HuMoments, cv2.moments. cbv zeta. simpl.
  rewrite !(spatial_moment_blank _ _ img Hflat).
  destruct (Rlt_dec cv2.DBL_EPSILON (Rabs 0));
    repeat (f_equal; try ring).
Qed.

(** ... and its seven features are nan. *)
Lemma moments_hu_blank (img : image) :
  flat_image img 0 ->
  FeatureExtraction.moments_hu img = [NaN; NaN; NaN; NaN; NaN; NaN; NaN].
Proof.
  intros Hflat. unfold FeatureExtraction.moments_hu.
  rewrite (HuMoments_blank img Hflat).
  unfold FeatureExtraction.log_trans. cbn [map].
  rewrite log_trans_component.
  destruct (Req_dec_T 0 0) as [_|Hn]; [reflexivity | contradiction].
Qed.

Lemma blank_2x2_flat : flat_image [[0; 0]; [0; 0]] 0.
Proof. unfold flat_image. repeat constructor. Qed.

(** C6, as the code has it.  [moments_hu] applies
    [-sign(v) * log10(|v|)] to every raw Hu moment [v] with no
    substitution: a non-zero moment gives that finite value, and a zero
    moment gives [-0 * -inf], which is nan, in the returned vector. *)
Theorem moments_hu_zero_moment_gives_nan
  (img : image) (i : nat) (v : R)
  (Hraw : nth_error (cv2.HuMoments (cv2.moments img)) i = Some v) :
  (v = 0 -> nth_error (FeatureExtraction.moments_hu img) i = Some NaN) /\
  (v <> 0 ->
   nth_error (FeatureExtraction.moments_hu img) i
   = Some (Fin (- Rsign v * (ln (Rabs v) / ln 10)))).
Proof.
  unfold FeatureExtraction.moments_hu, FeatureExtraction.log_trans.
  rewrite nth_error_map, Hraw. cbn [option_map].
  rewrite log_trans_component.
  split; intros Hv; destruct (Req_dec_T v 0); congruence.
Qed.

Lemma HuMoments_blank_2x2_first :
  nth_error (cv2.HuMoments (cv2.moments [[0; 0]; [0; 0]])) 0 = Some 0.
Proof. rewrite (HuMoments_blank _ blank_2x2_flat). reflexivity. Qed.

Lemma moments_hu_zero_moment_gives_nan_witness :
  nth_error (cv2.HuMoments (cv2.moments [[0; 0]; [0; 0]])) 0 = Some 0 /\
  nth_error (FeatureExtraction.moments_hu [[0; 0]; [0; 0]]) 0 = Some NaN.
Proof.
  split; [exact HuMoments_blank_2x2_first|].
  exact (proj1 (moments_hu_zero_moment_gives_nan [[0; 0]; [0; 0]] 0 0
                  HuMoments_blank_2x2_first) eq_refl).
Defined.

(** C6, as the spec words it, fails: the 2x2 image without ink has seven
    zero Hu moments, and [moments_hu] returns nan, not a finite sentinel,
    for each of them. *)
Lemma moments_hu_blank_image_is_all_nan :
  cv2.HuMoments (cv2.moments [[0; 0]; [0; 0]]) = [0; 0; 0; 0; 0; 0; 0] /\
  FeatureExtraction.moments_hu [[0; 0]; [0; 0]]
  = [NaN; NaN; NaN; NaN; NaN; NaN; NaN] /\
  ~ Exists is_finite (FeatureExtraction.moments_hu [[0; 0]; [0; 0]]).
Proof.
  split; [exact (HuMoments_blank _ blank_2x2_flat)|].
  split; [exact (moments_hu_blank _ blank_2x2_flat)|].
  rewrite (moments_hu_blank _ blank_2x2_flat).
  intros Hex. apply Exists_exists in Hex as (x & Hin & Hfin).
  simpl in Hin.
  repeat (destruct Hin as [Hin|Hin]; [subst x; exact Hfin|]).
  exact Hin.
Qed.

(** *** The mean histogram of the two Gabor responses *)

Lemma map_zip_with {A B C D : Type} (g : C -> D) (f : A -> B -> C)
      (xs : list A) (ys : list B) :
  map g (zip_with f xs ys) = zip_with (fun x y => g (f x y)) xs ys.
Proof.
  revert ys. induction xs as [|x xs IH]; intros [|y ys]; simpl; auto.
  rewrite IH. reflexivity.
Qed.

(** With two images, [np.sum(hists, axis=0) / len(images)] is, bin by bin,
    the floor of half the sum of the two counts. *)
Lemma mean_exposure_hist_pair (nbins : nat) (img1 img2 : image) :
  FeatureExtraction.mean_exposure_hist nbins img1 [img2] =
  rbind (exposure.histogram img1 nbins) (fun h1 =>
  rbind (exposure.histogram img2 nbins) (fun h2 =>
  ok (zip_with (fun c1 c2 => ((c1 + c2) / 2)%Z) (fst h1) (fst h2)))).
Proof.
  unfold FeatureExtraction.mean_exposure_hist. simpl.
  destruct (exposure.histogram img1 nbins) as [e|h1]; [reflexivity|].
  destruct (exposure.histogram img2 nbins) as [e|h2]; [reflexivity|].
  simpl. unfold np.int_div, np.sum_axis0. simpl fold_left.
  rewrite map_zip_with. reflexivity.
Qed.

(** With the class attributes as declared, the texture histogram is that
    of the response at [+pi/4] and of the response at [-pi/4], both at
    frequency 0.5 and bandwidth 0.8, halved bin by bin with floor
    division. *)
Lemma mean_exposure_hist_from_gabor_declared {sk : skimage_filter}
      (img : image) (nbins : nat) (w : world) :
  FeatureExtraction_attrs w = FeatureExtraction.declared ->
  FeatureExtraction.mean_exposure_hist_from_gabor img nbins w =
  (rbind (exposure.histogram
            (Preprocessing.angle_pass_filter img 0.50 (PI * (1 / 4.0)) 0.80)
            nbins) (fun front =>
   rbind (exposure.histogram
            (Preprocessing.angle_pass_filter img 0.50 (PI * (-1 / 4.0)) 0.80)
            nbins) (fun back =>
   ok (zip_with (fun c1 c2 => ((c1 + c2) / 2)%Z) (fst front) (fst back)))),
   w).
Proof.
  intros Hattrs. rewrite mean_exposure_hist_from_gabor_run. cbv zeta.
  rewrite Hattrs, mean_exposure_hist_pair. reflexivity.
Qed.

Lemma histogram_two_bins_low :
  exposure.histogram [[0; 1; 1]] 2 = ok ([1; 2]%Z, [1 / 4; 3 / 4]).
Proof.
  unfold exposure.histogram, np.histogram, flatten, np.hist_range,
    np.amin, np.amax. simpl concat. simpl fold_right. Rdecide.
  unfold np.linspace, exposure.bin_centers, np.bin_count, np.in_bin.
  simpl. Rdecide. simpl. unfold ok.
  match goal with
  | |- inr (_, [?x; ?y]) = _ =>
      replace x with (1 / 4) by lra; replace y with (3 / 4) by lra
  end.
  reflexivity.
Qed.

Lemma histogram_two_bins_high :
  exposure.histogram [[0; 0; 1]] 2 = ok ([2; 1]%Z, [1 / 4; 3 / 4]).
Proof.
  unfold exposure.histogram, np.histogram, flatten, np.hist_range,
    np.amin, np.amax. simpl concat. simpl fold_right. Rdecide.
  unfold np.linspace, exposure.bin_centers, np.bin_count, np.in_bin.
  simpl. Rdecide. simpl. unfold ok.
  match goal with
  | |- inr (_, [?x; ?y]) = _ =>
      replace x with (1 / 4) by lra; replace y with (3 / 4) by lra
  end.
  reflexivity.
Qed.

(** C7 at a failing input.  The two magnitude maps [[0, 1, 1]] and
    [[0, 0, 1]] have the 2-bin histograms [1, 2] and [2, 1], whose
    elementwise mean is [1.5, 1.5]; [mean_exposure_hist] returns [1, 1],
    the floor of it, because the integer counts are divided by the
    integer [len(images)]. *)
Theorem mean_exposure_hist_floors_the_mean :
  exposure.histogram [[0; 1; 1]] 2 = ok ([1; 2]%Z, [1 / 4; 3 / 4]) /\
  exposure.histogram [[0; 0; 1]] 2 = ok ([2; 1]%Z, [1 / 4; 3 / 4]) /\
  FeatureExtraction.mean_exposure_hist 2 [[0; 1; 1]] [[[0; 0; 1]]]
  = ok [1; 1]%Z.
Proof.
  split; [exact histogram_two_bins_low|].
  split; [exact histogram_two_bins_high|].
  rewrite mean_exposure_hist_pair.
  rewrite histogram_two_bins_low, histogram_two_bins_high. reflexivity.
Qed.

(** ** ComponentClassifier *)

Lemma after_calls_app (w : world) (cs ds : list capability_call) :
  after_calls (after_calls w cs) ds = after_calls w (cs ++ ds).
Proof. unfold after_calls. simpl. rewrite app_assoc. reflexivity. Qed.

Lemma record_call_run (c : capability_call) (w : world) :
  record_call c w = (ok tt, after_calls w [c]).
Proof. reflexivity. Qed.

Lemma as_int16_non_degenerate (image : bool_image) :
  non_degenerate image -> non_degenerate (ComponentClassifier.as_int16 image).
Proof.
  unfold non_degenerate, ComponentClassifier.as_int16.
  intros (Hrows & Hcols & Hrect).
  destruct image as [|line rest]; simpl in *; [lia|].
  rewrite !length_map. repeat split; auto.
  rewrite Forall_forall in *. intros r Hr.
  destruct Hr as [Hr|Hr].
  - subst r. rewrite length_map. reflexivity.
  - apply in_map_iff in Hr as (r0 & Hr0 & Hin). subst r.
    rewrite length_map. apply Hrect. right. exact Hin.
Qed.

Lemma vStackMatrices_rows (rows : list row) (M : matrix) :
  fold_left Utils.vStackMatrices rows (Some M) = Some (M ++ rows).
Proof.
  revert M. induction rows as [|r rows IH]; intros M; simpl.
  - rewrite app_nil_r. reflexivity.
  - rewrite IH, <- app_assoc. reflexivity.
Qed.

Lemma vStackMatrices_from_None (r : row) (rows : list row) :
  fold_left Utils.vStackMatrices (r :: rows) None = Some (r :: rows).
Proof. simpl. rewrite vStackMatrices_rows. reflexivity. Qed.

Lemma Forall2_exists {A B : Type} (P : A -> B -> Prop) (l : list A) :
  Forall (fun a => exists b, P a b) l -> exists l', Forall2 P l l'.
Proof.
  induction 1 as [|a l (b & Hb) _ (l' & IH)].
  - exists []. constructor.
  - exists (b :: l'). constructor; assumption.
Qed.

Lemma Forall2_nth_error_left {A B : Type} (P : A -> B -> Prop)
      (l : list A) (l' : list B) (i : nat) (a : A) :
  Forall2 P l l' -> nth_error l i = Some a ->
  exists b, nth_error l' i = Some b /\ P a b.
Proof.
  intros HF. revert i. induction HF as [|x y l l' Hxy _ IH]; intros i Hi.
  - destruct i; discriminate Hi.
  - destruct i as [|i]; simpl in *.
    + injection Hi as ->. exists y. split; [reflexivity | exact Hxy].
    + apply IH. exact Hi.
Qed.

Section ComponentClassifierProps.

Context {sk : skimage_filter} {cv : cv2_imgproc}.
Variable map_label_to_str : Z -> string.

(** The loop stacks the rows of the images in input order and leaves the
    state as it found it. *)
Lemma stack_features_run (nbins : nat) (w : world)
      (images : list bool_image) (rows : list row) (X : option matrix) :
  Forall2 (fun image r => feature_row w nbins image = ok r) images rows ->
  ComponentClassifier.stack_features images nbins X w =
  (ok (fold_left Utils.vStackMatrices rows X), w).
Proof.
  intros HF. revert X.
  induction HF as [|image r images rows Hrow _ IH]; intros X.
  - reflexivity.
  - simpl. unfold bind at 1. unfold lift.
    unfold feature_row in Hrow.
    destruct (Preprocessing.standardize_shape
                (ComponentClassifier.as_int16 image)) as [e|im];
      [discriminate Hrow|].
    simpl in Hrow. unfold bind.
    pose proof (moments_nbins_world im nbins w) as Hw.
    destruct (FeatureExtraction.moments_nbins im nbins w) as [res w'].
    simpl in Hrow, Hw. subst w' res. apply IH.
Qed.

(** With a resize that serves every non-degenerate source, every
    non-degenerate image has a feature row. *)
Lemma feature_row_exists (nbins : nat) (w : world) (img : bool_image) :
  (forall (src : image) (wd ht : Z),
      non_degenerate src -> (0 < wd)%Z -> (0 < ht)%Z ->
      exists dst, cv2_resize src (wd, ht) = ok dst) ->
  (1 <= nbins)%nat -> non_degenerate img ->
  exists r, feature_row w nbins img = ok r.
Proof.
  intros Hresize Hbins Himage. unfold feature_row.
  rewrite standardize_shape_dsize.
  destruct (Hresize (ComponentClassifier.as_int16 img) 64%Z 38%Z
              (as_int16_non_degenerate img Himage) eq_refl eq_refl)
    as (im & Him).
  rewrite Him. simpl.
  destruct (moments_nbins_ok im nbins w Hbins) as (r & Hrun & _).
  exists r. rewrite Hrun. reflexivity.
Qed.

(** What [predict] does once the loop has built a matrix. *)
Lemma predict_run (images : list bool_image) (clf : Classifier)
      (nbins : nat) (scaler : Scaler) (w : world) (X : option matrix) :
  ComponentClassifier.stack_features images nbins None w = (ok X, w) ->
  ComponentClassifier.predict map_label_to_str images clf nbins scaler w =
  match transform scaler X with
  | inl e => (inl e, after_calls w [call_transform X])
  | inr X' =>
      match clf_predict clf X' with
      | inl e => (inl e, after_calls w [call_transform X; call_predict X'])
      | inr y_pred =>
          (ok (map map_label_to_str y_pred),
           after_calls w [call_transform X; call_predict X'])
      end
  end.
Proof.
  intros Hloop.
  unfold ComponentClassifier.predict, bind, lift, ret, record_call.
  rewrite Hloop. unfold after_calls, ok. cbv beta iota.
  destruct (transform scaler X) as [e|X']; [reflexivity|].
  cbn [FeatureExtraction_attrs calls].
  destruct (clf_predict clf X') as [e|y_pred];
    rewrite <- app_assoc; reflexivity.
Qed.

End ComponentClassifierProps.

(** C1, as the code has it.  For every non-empty sequence of
    non-degenerate images and every [nbins >= 1], with a scaler and a
    classifier that work row by row, [predict] returns one label per
    image, in input order: the i-th label is the name of the class the
    classifier gives to the scaled feature row of the i-th image. *)
Theorem predict_preserves_length_and_order
  {sk : skimage_filter} {cv : cv2_imgproc}
  (map_label_to_str : Z -> string) (clf : Classifier) (scaler : Scaler)
  (scale_row : row -> row) (classify_row : row -> Z)
  (resize_total :
     forall (src : image) (wd ht : Z),
       non_degenerate src -> (0 < wd)%Z -> (0 < ht)%Z ->
       exists dst, cv2_resize src (wd, ht) = ok dst)
  (scaler_by_row :
     forall X, transform scaler (Some X) = ok (map scale_row X))
  (clf_by_row : forall X, clf_predict clf X = ok (map classify_row X))
  (images : list bool_image) (nbins : nat) (w : world)
  (Hnonempty : images <> [])
  (Hvalid : Forall non_degenerate images)
  (Hbins : (1 <= nbins)%nat) :
  exists labels w',
    ComponentClassifier.predict map_label_to_str images clf nbins scaler w
    = (ok labels, w') /\
    length labels = length images /\
    forall i img, nth_error images i = Some img ->
      exists r,
        feature_row w nbins img = ok r /\
        nth_error labels i
        = Some (map_label_to_str (classify_row (scale_row r))).
Proof.
  assert (Hrows : exists rows,
             Forall2 (fun img r => feature_row w nbins img = ok r)
                     images rows).
  { apply Forall2_exists. rewrite Forall_forall in *. intros img Hin.
    apply feature_row_exists; auto. }
  destruct Hrows as (rows & Hrows).
  pose proof (stack_features_run nbins w images rows None Hrows) as Hloop.
  pose proof (Forall2_length Hrows) as Hlen.
  destruct rows as [|r rows].
  { destruct images; [contradiction | discriminate Hlen]. }
  rewrite vStackMatrices_from_None in Hloop.
  exists (map map_label_to_str (map classify_row (map scale_row (r :: rows)))).
  eexists. split; [|split].
  - rewrite (predict_run map_label_to_str images clf nbins scaler w _ Hloop).
    rewrite scaler_by_row. unfold ok. cbv beta iota.
    rewrite clf_by_row. reflexivity.
  - rewrite !length_map. symmetry. exact Hlen.
  - intros i img Hi.
    destruct (Forall2_nth_error_left _ _ _ _ _ Hrows Hi) as (ri & Hri & Hfeat).
    exists ri. split; [exact Hfeat|].
    rewrite !nth_error_map, Hri. reflexivity.
Qed.

Lemma nearest_resize_total (src : image) (wd ht : Z) :
  non_degenerate src -> (0 < wd)%Z -> (0 < ht)%Z ->
  exists dst, nearest_resize src (wd, ht) = ok dst.
Proof.
  intros Hsrc Hw Hh.
  destruct (nearest_resize_shape src wd ht Hsrc Hw Hh) as (dst & Hdst & _).
  exists dst. exact Hdst.
Qed.

Lemma identity_scaler_by_row (X : matrix) :
  transform identity_scaler (Some X) = ok (map (fun r : row => r) X).
Proof. simpl. rewrite map_id. reflexivity. Qed.

Lemma constant_classifier_by_row (X : matrix) :
  clf_predict constant_classifier X = ok (map (fun _ : row => 0%Z) X).
Proof. reflexivity. Qed.

Lemma two_components_nonempty : two_components <> [].
Proof. discriminate. Qed.

Lemma two_components_valid : Forall non_degenerate two_components.
Proof.
  unfold two_components, non_degenerate. simpl.
  repeat constructor.
Qed.

Lemma predict_preserves_length_and_order_witness :
  two_components <> [] /\
  Forall non_degenerate two_components /\
  (1 <= 16)%nat /\
  exists labels w',
    ComponentClassifier.predict (sk := reference_skimage)
      (cv := reference_cv2) label_names two_components
      constant_classifier 16 identity_scaler initial_world
    = (ok labels, w') /\
    length labels = 2%nat /\
    forall i img, nth_error two_components i = Some img ->
      exists r,
        feature_row (sk := reference_skimage) (cv := reference_cv2)
                    initial_world 16 img = ok r /\
        nth_error labels i = Some (label_names 0%Z).
Proof.
  split; [exact two_components_nonempty|].
  split; [exact two_components_valid|].
  split; [exact (Nat.lt_0_succ 15)|].
  exact (predict_preserves_length_and_order
           (sk := reference_skimage) (cv := reference_cv2)
           label_names constant_classifier identity_scaler
           (fun r => r) (fun _ => 0%Z)
           nearest_resize_total identity_scaler_by_row
           constant_classifier_by_row
           two_components 16 initial_world
           two_components_nonempty two_components_valid
           (Nat.lt_0_succ 15)).
Defined.

(** C1, as the spec words it, fails on the empty sequence: no row is
    stacked, the scaler is handed [None], and with a scaler that rejects
    it [predict] raises instead of returning the empty sequence. *)
Lemma predict_empty_returns_no_sequence :
  ~ exists labels w',
      ComponentClassifier.predict (sk := reference_skimage)
        (cv := reference_cv2) label_names [] constant_classifier 16
        identity_scaler initial_world = (ok labels, w').
Proof.
  intros (labels & w' & Hrun). discriminate Hrun.
Qed.

(** C4, as the code has it.  On the empty sequence [predict] stacks no
    row and calls [scaler.transform] once, on [None]; what the scaler
    returns goes to [clf.predict], the labels that come back are mapped
    to their names, and an exception of either object ends the call. *)
Theorem predict_empty_calls_scaler_on_None
  {sk : skimage_filter} {cv : cv2_imgproc}
  (map_label_to_str : Z -> string) (clf : Classifier) (nbins : nat)
  (scaler : Scaler) (w : world) :
  ComponentClassifier.predict map_label_to_str [] clf nbins scaler w =
  match transform scaler None with
  | inl e => (inl e, after_calls w [call_transform None])
  | inr X' =>
      match clf_predict clf X' with
      | inl e =>
          (inl e, after_calls w [call_transform None; call_predict X'])
      | inr y_pred =>
          (ok (map map_label_to_str y_pred),
           after_calls w [call_transform None; call_predict X'])
      end
  end.
Proof. apply predict_run. reflexivity. Qed.

(** C4, as the spec words it, fails: on the empty sequence the scaler is
    invoked, on the absent matrix, and with a scaler that rejects [None]
    the call ends in that [TypeError] rather than in the empty result. *)
Lemma predict_empty_invokes_scaler :
  ComponentClassifier.predict (sk := reference_skimage)
    (cv := reference_cv2) label_names [] constant_classifier 16
    identity_scaler initial_world
  = (raise TypeError,
     {| FeatureExtraction_attrs := FeatureExtraction.declared;
        calls := [call_transform None] |}).
Proof. reflexivity. Qed.

(** * Further properties of the pipeline *)

(** ** The mean histogram *)

Lemma exposure_histogram_error (img : image) (nbins : nat) (e : exception) :
  exposure.histogram img nbins = inl e -> e = ValueError /\ nbins = 0%nat.
Proof.
  unfold exposure.histogram, np.histogram.
  destruct nbins as [|n]; simpl.
  - intros H. injection H as <-. auto.
  - destruct (np.hist_range (flatten img)); simpl. discriminate.
Qed.

Lemma zip_with_comm {A B : Type} (f : A -> A -> B) (xs ys : list A) :
  (forall x y, f x y = f y x) -> zip_with f xs ys = zip_with f ys xs.
Proof.
  intros Hf. revert ys.
  induction xs as [|x xs IH]; intros [|y ys]; simpl; auto.
  rewrite Hf, IH. reflexivity.
Qed.

(** [mean_exposure_hist] does not depend on the order of its two images:
    the histograms are summed before the division, and a rejected bin
    count is rejected for both orders alike. *)
Theorem mean_exposure_hist_symmetric (nbins : nat) (img1 img2 : image) :
  FeatureExtraction.mean_exposure_hist nbins img1 [img2] =
  FeatureExtraction.mean_exposure_hist nbins img2 [img1].
Proof.
  rewrite !mean_exposure_hist_pair.
  destruct (exposure.histogram img1 nbins) as [e1|h1] eqn:H1;
    destruct (exposure.histogram img2 nbins) as [e2|h2] eqn:H2; simpl.
  - apply exposure_histogram_error in H1 as (-> & _).
    apply exposure_histogram_error in H2 as (-> & _). reflexivity.
  - apply exposure_histogram_error in H1 as (_ & ->).
    discriminate H2.
  - apply exposure_histogram_error in H2 as (_ & ->).
    discriminate H1.
  - f_equal. apply zip_with_comm. intros x y.
    rewrite Z.add_comm. reflexivity.
Qed.

Lemma backslash_is_mirrored_frontslash {sk : skimage_filter}
      (img : image) (d f b : R) :
  d <> 0 ->
  Preprocessing.backslash_filter img d f b =
  Preprocessing.frontslash_filter img (- d) f b.
Proof.
  intros Hd.
  unfold Preprocessing.backslash_filter, Preprocessing.frontslash_filter.
  replace (PI * (1 / - d)) with (PI * (-1 / d)) by (field; lra).
  reflexivity.
Qed.

Lemma frontslash_is_mirrored_backslash {sk : skimage_filter}
      (img : image) (d f b : R) :
  d <> 0 ->
  Preprocessing.frontslash_filter img d f b =
  Preprocessing.backslash_filter img (- d) f b.
Proof.
  intros Hd.
  unfold Preprocessing.backslash_filter, Preprocessing.frontslash_filter.
  replace (PI * (-1 / - d)) with (PI * (1 / d)) by (field; lra).
  reflexivity.
Qed.

(** The texture histogram cannot tell the two diagonals apart: negating
    [FeatureExtraction.denom], which swaps the frontslash and the
    backslash orientation, leaves the result of
    [mean_exposure_hist_from_gabor] unchanged. *)
Theorem mean_exposure_hist_from_gabor_mirror {sk : skimage_filter}
  (img : image) (nbins : nat) (w : world) (d : R) (Hd : d <> 0) :
  fst (FeatureExtraction.mean_exposure_hist_from_gabor img nbins
         (with_denom w (- d))) =
  fst (FeatureExtraction.mean_exposure_hist_from_gabor img nbins
         (with_denom w d)).
Proof.
  rewrite !mean_exposure_hist_from_gabor_run. cbv zeta. simpl.
  rewrite <- (backslash_is_mirrored_frontslash img d) by exact Hd.
  rewrite (frontslash_is_mirrored_backslash img d) by exact Hd.
  apply mean_exposure_hist_symmetric.
Qed.

Lemma four_nonzero : 4 <> 0.
Proof. lra. Qed.

Lemma mean_exposure_hist_from_gabor_mirror_witness :
  4 <> 0 /\
  fst (FeatureExtraction.mean_exposure_hist_from_gabor
         (sk := reference_skimage) [[0; 1]; [1; 0]] 16
         (with_denom initial_world (- 4))) =
  fst (FeatureExtraction.mean_exposure_hist_from_gabor
         (sk := reference_skimage) [[0; 1]; [1; 0]] 16
         (with_denom initial_world 4)).
Proof.
  split; [exact four_nonzero|].
  exact (mean_exposure_hist_from_gabor_mirror (sk := reference_skimage)
           [[0; 1]; [1; 0]] 16 initial_world 4 four_nonzero).
Defined.

Lemma zip_with_add_scaled (h : list Z) (j : Z) :
  zip_with Z.add (map (fun c => (c * j)%Z) h) h
  = map (fun c => (c * (j + 1))%Z) h.
Proof.
  induction h as [|c h IH]; simpl; [reflexivity|].
  rewrite IH. f_equal. ring.
Qed.

Lemma sum_axis0_copies (h : list Z) (k : nat) (j : Z) :
  fold_left (zip_with Z.add) (repeat h k) (map (fun c => (c * j)%Z) h)
  = map (fun c => (c * (j + Z.of_nat k))%Z) h.
Proof.
  revert j. induction k as [|k IH]; intros j.
  - simpl. apply map_ext. intros c. f_equal. lia.
  - cbn [repeat fold_left]. rewrite zip_with_add_scaled, IH.
    apply map_ext. intros c. f_equal. lia.
Qed.

Lemma exposure_hists_copies (nbins : nat) (img : image) (k : nat)
      (h : list Z * list R) :
  exposure.histogram img nbins = ok h ->
  FeatureExtraction.exposure_hists nbins (repeat img k)
  = ok (repeat (fst h) k).
Proof.
  intros Hh. induction k as [|k IH]; simpl; [reflexivity|].
  rewrite Hh. simpl. rewrite IH. reflexivity.
Qed.

(** The mean histogram of any number of copies of one image is the
    histogram of that image: the floor division loses nothing when all
    the counts agree. *)
Theorem mean_exposure_hist_of_copies (nbins : nat) (img : image) (k : nat) :
  FeatureExtraction.mean_exposure_hist nbins img (repeat img k) =
  rbind (exposure.histogram img nbins) (fun h => ok (fst h)).
Proof.
  unfold FeatureExtraction.mean_exposure_hist.
  change (img :: repeat img k) with (repeat img (S k)).
  destruct (exposure.histogram img nbins) as [e|h] eqn:Hh.
  - simpl. rewrite Hh. reflexivity.
  - rewrite (exposure_hists_copies nbins img (S k) h Hh).
    simpl rbind. cbn [repeat hd tl]. unfold np.sum_axis0, np.int_div.
    rewrite repeat_length.
    replace (fst h) with (map (fun c => (c * 1)%Z) (fst h)) at 2
      by (rewrite <- (map_id (fst h)) at 2; apply map_ext; intros; lia).
    rewrite sum_axis0_copies, map_map. unfold ok. f_equal.
    rewrite <- (map_id (fst h)) at 2. apply map_ext. intros c.
    replace (1 + Z.of_nat k)%Z with (Z.of_nat (S k)) by lia.
    apply Z.div_mul. lia.
Qed.

(** ** The log transform of the Hu moments, continued *)

Lemma ln_10_pos : 0 < ln 10.
Proof. rewrite <- ln_1. apply ln_increasing; lra. Qed.

Lemma Rsign_pos (x : R) : 0 < x -> Rsign x = 1.
Proof. intros Hx. unfold Rsign. Rdecide. reflexivity. Qed.

Lemma Rsign_neg (x : R) : x < 0 -> Rsign x = -1.
Proof. intros Hx. unfold Rsign. Rdecide. reflexivity. Qed.

Lemma log10_abs_sign (v : R) :
  v <> 0 ->
  (Rabs v < 1 -> ln (Rabs v) / ln 10 < 0) /\
  (1 < Rabs v -> 0 < ln (Rabs v) / ln 10) /\
  (Rabs v = 1 -> ln (Rabs v) / ln 10 = 0).
Proof.
  intros Hv. pose proof (Rabs_pos_lt v Hv) as Hpos.
  pose proof ln_10_pos as H10.
  pose proof (Rinv_0_lt_compat (ln 10) H10) as Hinv.
  unfold Rdiv. repeat split; intros Habs.
  - pose proof (ln_increasing (Rabs v) 1 Hpos Habs) as Hln.
    rewrite ln_1 in Hln. nra.
  - pose proof (ln_increasing 1 (Rabs v) Rlt_0_1 Habs) as Hln.
    rewrite ln_1 in Hln. nra.
  - rewrite Habs, ln_1. apply Rmult_0_l.
Qed.

(** The log transform keeps the sign of a raw Hu moment only when the
    moment is smaller than one in absolute value; a moment larger than
    one comes out with the opposite sign, and the moments 1 and -1 both
    come out as zero. *)
Theorem moments_hu_sign_of_component
  (img : image) (i : nat) (v : R)
  (Hraw : nth_error (cv2.HuMoments (cv2.moments img)) i = Some v)
  (Hv : v <> 0) :
  exists y,
    nth_error (FeatureExtraction.moments_hu img) i = Some (Fin y) /\
    (Rabs v < 1 -> Rsign y = Rsign v) /\
    (1 < Rabs v -> Rsign y = - Rsign v) /\
    (Rabs v = 1 -> y = 0).
Proof.
  exists (- Rsign v * (ln (Rabs v) / ln 10)).
  split.
  - unfold FeatureExtraction.moments_hu, FeatureExtraction.log_trans.
    rewrite nth_error_map, Hraw. cbn [option_map].
    rewrite log_trans_component.
    destruct (Req_dec_T v 0); [contradiction | reflexivity].
  - destruct (log10_abs_sign v Hv) as (Hsmall & Hlarge & Hone).
    destruct (Rtotal_order v 0) as [Hneg | [Hz | Hpos]]; [|contradiction|].
    + rewrite (Rsign_neg v Hneg).
      repeat split; intros Habs.
      * specialize (Hsmall Habs). apply Rsign_neg. lra.
      * specialize (Hlarge Habs). rewrite Rsign_pos; lra.
      * rewrite (Hone Habs). ring.
    + rewrite (Rsign_pos v Hpos).
      repeat split; intros Habs.
      * specialize (Hsmall Habs). apply Rsign_pos. lra.
      * specialize (Hlarge Habs). rewrite Rsign_neg; lra.
      * rewrite (Hone Habs). ring.
Qed.

Lemma DBL_EPSILON_lt_1 : cv2.DBL_EPSILON < 1.
Proof.
  unfold cv2.DBL_EPSILON.
  pose proof (Rlt_pow_R1 2 52 ltac:(lra) ltac:(lia)) as Hpow.
  rewrite <- Rinv_1. apply Rinv_lt_contravar; lra.
Qed.

(** The raw Hu moments of the two-pixel stroke [[1, 1]]. *)
Lemma HuMoments_two_pixels_first :
  nth_error (cv2.HuMoments (cv2.moments [[1; 1]])) 0 = Some (1 / 8).
Proof.
  unfold cv2.HuMoments, cv2.moments. cbv zeta.
  cbn [nth_error cv2.nu20 cv2.nu02].
  unfold cv2.spatial_moment, cv2.row_moment, cv2.Rsum. simpl.
  replace (1 * (1 * 1 + (1 * 1 + 0)) + 0) with 2 by lra.
  pose proof DBL_EPSILON_lt_1 as Heps.
  destruct (Rlt_dec cv2.DBL_EPSILON (Rabs 2)) as [_|Hn].
  - f_equal. field.
  - exfalso. apply Hn. rewrite Rabs_right; lra.
Qed.

Lemma one_eighth_nonzero : 1 / 8 <> 0.
Proof. lra. Qed.

Lemma moments_hu_sign_of_component_witness :
  nth_error (cv2.HuMoments (cv2.moments [[1; 1]])) 0 = Some (1 / 8) /\
  1 / 8 <> 0 /\
  exists y,
    nth_error (FeatureExtraction.moments_hu [[1; 1]]) 0 = Some (Fin y) /\
    (Rabs (1 / 8) < 1 -> Rsign y = Rsign (1 / 8)) /\
    (1 < Rabs (1 / 8) -> Rsign y = - Rsign (1 / 8)) /\
    (Rabs (1 / 8) = 1 -> y = 0).
Proof.
  split; [exact HuMoments_two_pixels_first|].
  split; [exact one_eighth_nonzero|].
  exact (moments_hu_sign_of_component [[1; 1]] 0 (1 / 8)
           HuMoments_two_pixels_first one_eighth_nonzero).
Defined.

Lemma Rsign_opp_inv (v : R) : v <> 0 -> Rsign (- / v) = - Rsign v.
Proof.
  intros Hv.
  destruct (Rtotal_order v 0) as [Hneg | [Hz | Hpos]]; [|contradiction|].
  - rewrite (Rsign_neg v Hneg), Rsign_pos; [lra|].
    pose proof (Rinv_lt_0_compat v Hneg). lra.
  - rewrite (Rsign_pos v Hpos), Rsign_neg; [lra|].
    pose proof (Rinv_0_lt_compat v Hpos). lra.
Qed.

(** The log transform is not injective: a raw moment [v] and its negated
    reciprocal [-1/v] give the same feature, so that, for instance, the
    moments 2 and -0.5 cannot be told apart downstream. *)
Theorem log_trans_negated_reciprocal (raw : list R)
  (Hnonzero : Forall (fun v => v <> 0) raw) :
  FeatureExtraction.log_trans (map (fun v => - / v) raw)
  = FeatureExtraction.log_trans raw.
Proof.
  unfold FeatureExtraction.log_trans. rewrite map_map.
  apply map_ext_in. intros v Hin.
  rewrite Forall_forall in Hnonzero. pose proof (Hnonzero v Hin) as Hv.
  rewrite !log_trans_component.
  assert (Hinv : - / v <> 0).
  { pose proof (Rinv_neq_0_compat v Hv). lra. }
  destruct (Req_dec_T (- / v) 0); [contradiction|].
  destruct (Req_dec_T v 0); [contradiction|].
  f_equal. rewrite (Rsign_opp_inv v Hv), Rabs_Ropp, Rabs_inv.
  rewrite (ln_Rinv (Rabs v) (Rabs_pos_lt v Hv)).
  field. pose proof ln_10_pos. lra.
Qed.

Lemma two_nonzero : Forall (fun v : R => v <> 0) [2].
Proof. repeat constructor. lra. Qed.

Lemma log_trans_negated_reciprocal_witness :
  Forall (fun v : R => v <> 0) [2] /\
  FeatureExtraction.log_trans [- / 2] = FeatureExtraction.log_trans [2].
Proof.
  split; [exact two_nonzero|].
  exact (log_trans_negated_reciprocal [2] two_nonzero).
Defined.

(** ** [predict], continued *)

Section PredictProps.

Context {sk : skimage_filter} {cv : cv2_imgproc}.
Variable map_label_to_str : Z -> string.

(** The loop, in closed form: it ends at the first image without a
    feature row, and otherwise stacks all rows; the state is untouched. *)
Lemma stack_features_closed (nbins : nat) (w : world)
      (images : list bool_image) (X : option matrix) :
  ComponentClassifier.stack_features images nbins X w =
  (rbind (feature_rows w nbins images)
         (fun rows => ok (fold_left Utils.vStackMatrices rows X)), w).
Proof.
  revert X. induction images as [|img rest IH]; intros X; [reflexivity|].
  cbn [ComponentClassifier.stack_features feature_rows].
  unfold bind at 1. unfold lift. unfold feature_row.
  destruct (Preprocessing.standardize_shape
              (ComponentClassifier.as_int16 img)) as [e|im];
    [reflexivity|].
  cbn [rbind]. unfold bind.
  pose proof (moments_nbins_world im nbins w) as Hw.
  destruct (FeatureExtraction.moments_nbins im nbins w) as [res w'].
  simpl in Hw. subst w'. simpl fst.
  destruct res as [e|r]; [reflexivity|].
  rewrite IH. cbn [rbind].
  destruct (feature_rows w nbins rest) as [e|rows]; reflexivity.
Qed.

Lemma predict_closed (images : list bool_image) (clf : Classifier)
      (nbins : nat) (scaler : Scaler) (w : world) :
  ComponentClassifier.predict map_label_to_str images clf nbins scaler w =
  match feature_rows w nbins images with
  | inl e => (inl e, w)
  | inr rows =>
      let X := fold_left Utils.vStackMatrices rows None in
      match transform scaler X with
      | inl e => (inl e, after_calls w [call_transform X])
      | inr X' =>
          match clf_predict clf X' with
          | inl e =>
              (inl e, after_calls w [call_transform X; call_predict X'])
          | inr y_pred =>
              (ok (map map_label_to_str y_pred),
               after_calls w [call_transform X; call_predict X'])
          end
      end
  end.
Proof.
  destruct (feature_rows w nbins images) as [e|rows] eqn:Hrows.
  - unfold ComponentClassifier.predict. unfold bind at 1.
    rewrite stack_features_closed, Hrows. reflexivity.
  - apply predict_run. rewrite stack_features_closed, Hrows. reflexivity.
Qed.

Lemma feature_rows_fail_at (nbins : nat) (w : world)
      (pre post : list bool_image) (bad : bool_image) (e : exception) :
  Forall (fun img => exists r, feature_row w nbins img = ok r) pre ->
  feature_row w nbins bad = raise e ->
  feature_rows w nbins (pre ++ bad :: post) = raise e.
Proof.
  intros Hpre Hbad.
  induction Hpre as [|img pre (r & Hr) _ IH]; simpl.
  - rewrite Hbad. reflexivity.
  - rewrite Hr, IH. reflexivity.
Qed.

Lemma feature_rows_valid (nbins : nat) (w : world)
      (images : list bool_image) :
  Forall (fun img => exists r, feature_row w nbins img = ok r) images ->
  exists rows, feature_rows w nbins images = ok rows /\
               Forall2 (fun img r => feature_row w nbins img = ok r)
                       images rows.
Proof.
  induction 1 as [|img images (r & Hr) _ (rows & Hrows & HF)]; simpl.
  - exists []. split; [reflexivity | constructor].
  - exists (r :: rows). rewrite Hr, Hrows. split; [reflexivity|].
    constructor; assumption.
Qed.

End PredictProps.

(** A batch has no partial result: the first image whose features cannot
    be extracted ends [predict] with that image's exception, before the
    scaler or the classifier is called, whatever comes after it in the
    batch. *)
Theorem predict_first_failure_aborts
  {sk : skimage_filter} {cv : cv2_imgproc}
  (map_label_to_str : Z -> string) (clf : Classifier) (scaler : Scaler)
  (nbins : nat) (w : world)
  (pre post : list bool_image) (bad : bool_image) (e : exception)
  (Hpre : Forall (fun img => exists r, feature_row w nbins img = ok r) pre)
  (Hbad : feature_row w nbins bad = raise e) :
  ComponentClassifier.predict map_label_to_str (pre ++ bad :: post)
                              clf nbins scaler w
  = (raise e, w).
Proof.
  rewrite predict_closed.
  rewrite (feature_rows_fail_at nbins w pre post bad e Hpre Hbad).
  reflexivity.
Qed.

Lemma single_pixel_has_row :
  Forall (fun img => exists r,
              feature_row (sk := reference_skimage) (cv := reference_cv2)
                          initial_world 16 img = ok r)
         [[[true]]].
Proof.
  repeat constructor.
  apply feature_row_exists.
  - exact nearest_resize_total.
  - exact (Nat.lt_0_succ 15).
  - unfold non_degenerate. simpl. repeat constructor.
Qed.

Lemma empty_image_has_no_row :
  feature_row (sk := reference_skimage) (cv := reference_cv2)
              initial_world 16 [] = raise cv2_error.
Proof. reflexivity. Qed.

Lemma predict_first_failure_aborts_witness :
  Forall (fun img => exists r,
              feature_row (sk := reference_skimage) (cv := reference_cv2)
                          initial_world 16 img = ok r)
         [[[true]]] /\
  feature_row (sk := reference_skimage) (cv := reference_cv2)
              initial_world 16 [] = raise cv2_error /\
  ComponentClassifier.predict (sk := reference_skimage)
    (cv := reference_cv2) label_names ([[[true]]] ++ [] :: [[[false]]])
    constant_classifier 16 identity_scaler initial_world
  = (raise cv2_error, initial_world).
Proof.
  split; [exact single_pixel_has_row|].
  split; [exact empty_image_has_no_row|].
  exact (predict_first_failure_aborts (sk := reference_skimage)
           (cv := reference_cv2) label_names constant_classifier
           identity_scaler 16 initial_world [[[true]]] [[[false]]] []
           cv2_error single_pixel_has_row empty_image_has_no_row).
Defined.

Lemma feature_row_zero_bins {sk : skimage_filter} {cv : cv2_imgproc}
      (w : world) (img : bool_image) (im : image) :
  Preprocessing.standardize_shape (ComponentClassifier.as_int16 img) = ok im ->
  feature_row w 0 img = raise ValueError.
Proof.
  intros Him. unfold feature_row. rewrite Him. cbn [rbind ok].
  rewrite moments_nbins_run, mean_exposure_hist_from_gabor_run.
  reflexivity.
Qed.

(** With [nbins = 0], [predict] on a batch whose first image can be
    resized raises [ValueError] at that image's histogram, before the
    scaler or the classifier is called. *)
Theorem predict_zero_bins_raises
  {sk : skimage_filter} {cv : cv2_imgproc}
  (map_label_to_str : Z -> string) (clf : Classifier) (scaler : Scaler)
  (w : world) (img : bool_image) (rest : list bool_image) (im : image)
  (Hresize : Preprocessing.standardize_shape
               (ComponentClassifier.as_int16 img) = ok im) :
  ComponentClassifier.predict map_label_to_str (img :: rest) clf 0 scaler w
  = (raise ValueError, w).
Proof.
  rewrite predict_closed. cbn [feature_rows].
  rewrite (feature_row_zero_bins w img im Hresize). reflexivity.
Qed.

Lemma predict_zero_bins_raises_witness :
  (exists im,
      Preprocessing.standardize_shape (cv := reference_cv2)
        (ComponentClassifier.as_int16 [[true; false]]) = ok im) /\
  ComponentClassifier.predict (sk := reference_skimage)
    (cv := reference_cv2) label_names [[[true; false]]; [[false]]]
    constant_classifier 0 identity_scaler initial_world
  = (raise ValueError, initial_world).
Proof.
  split.
  - eexists. reflexivity.
  - exact (predict_zero_bins_raises (sk := reference_skimage)
             (cv := reference_cv2) label_names constant_classifier
             identity_scaler initial_world [[true; false]] [[[false]]]
             _ eq_refl).
Defined.

(** An exception of [scaler.transform] or of [clf.predict] reaches the
    caller of [predict] unchanged.  The matrix [X] the scaler is called
    on is the stack of the feature rows of the images, in input order.
    When the scaler raises, the scaler has been called once and the
    classifier not at all; when the classifier raises, each has been
    called once, the scaler first. *)
Theorem predict_propagates_capability_errors
  {sk : skimage_filter} {cv : cv2_imgproc}
  (map_label_to_str : Z -> string) (clf : Classifier) (scaler : Scaler)
  (nbins : nat) (w : world) (images : list bool_image)
  (Hvalid : Forall (fun img => exists r, feature_row w nbins img = ok r)
                   images) :
  exists rows,
    Forall2 (fun img r => feature_row w nbins img = ok r) images rows /\
    let X := fold_left Utils.vStackMatrices rows None in
    (forall e, transform scaler X = raise e ->
       ComponentClassifier.predict map_label_to_str images clf nbins
                                   scaler w
       = (raise e, after_calls w [call_transform X])) /\
    (forall X' e, transform scaler X = ok X' ->
       clf_predict clf X' = raise e ->
       ComponentClassifier.predict map_label_to_str images clf nbins
                                   scaler w
       = (raise e, after_calls w [call_transform X; call_predict X'])).
Proof.
  destruct (feature_rows_valid nbins w images Hvalid)
    as (rows & Hrows & Heach).
  exists rows. split; [exact Heach|]. cbv zeta. split.
  - intros e He. rewrite predict_closed, Hrows.
    unfold ok. cbv beta iota zeta. rewrite He. reflexivity.
  - intros X' e HX' He. rewrite predict_closed, Hrows.
    unfold ok in *. cbv beta iota zeta. rewrite HX'. cbv beta iota.
    rewrite He. reflexivity.
Qed.

Lemma predict_propagates_capability_errors_witness :
  Forall (fun img => exists r,
              feature_row (sk := reference_skimage) (cv := reference_cv2)
                          initial_world 16 img = ok r)
         [[[true]]] /\
  exists rows,
    Forall2 (fun img r =>
               feature_row (sk := reference_skimage) (cv := reference_cv2)
                           initial_world 16 img = ok r)
            [[[true]]] rows /\
    let X := fold_left Utils.vStackMatrices rows None in
    (forall e, transform failing_scaler X = raise e ->
       ComponentClassifier.predict (sk := reference_skimage)
         (cv := reference_cv2) label_names [[[true]]]
         constant_classifier 16 failing_scaler initial_world
       = (raise e, after_calls initial_world [call_transform X])) /\
    (forall X' e, transform failing_scaler X = ok X' ->
       clf_predict constant_classifier X' = raise e ->
       ComponentClassifier.predict (sk := reference_skimage)
         (cv := reference_cv2) label_names [[[true]]]
         constant_classifier 16 failing_scaler initial_world
       = (raise e,
          after_calls initial_world [call_transform X; call_predict X'])).
Proof.
  split; [exact single_pixel_has_row|].
  exact (predict_propagates_capability_errors (sk := reference_skimage)
           (cv := reference_cv2) label_names constant_classifier
           failing_scaler 16 initial_world [[[true]]]
           single_pixel_has_row).
Defined.

(** [predict] does not compare the number of labels with the number of
    images: with [X] the stack of the feature rows of the images, the
    result is the names of the labels the classifier answers for the
    scaled [X], as many as the classifier answers, so a classifier that
    answers one label for a batch of two yields a result of length
    one. *)
Theorem predict_returns_classifier_answer
  {sk : skimage_filter} {cv : cv2_imgproc}
  (map_label_to_str : Z -> string) (clf : Classifier) (scaler : Scaler)
  (scale : option matrix -> matrix) (answer : matrix -> list Z)
  (nbins : nat) (w : world) (images : list bool_image)
  (Hvalid : Forall (fun img => exists r, feature_row w nbins img = ok r)
                   images)
  (Hscaler : forall X, transform scaler X = ok (scale X))
  (Hclf : forall X', clf_predict clf X' = ok (answer X')) :
  exists rows labels,
    Forall2 (fun img r => feature_row w nbins img = ok r) images rows /\
    let X := fold_left Utils.vStackMatrices rows None in
    ComponentClassifier.predict map_label_to_str images clf nbins scaler w
    = (ok labels,
       after_calls w [call_transform X; call_predict (scale X)]) /\
    labels = map map_label_to_str (answer (scale X)) /\
    length labels = length (answer (scale X)).
Proof.
  destruct (feature_rows_valid nbins w images Hvalid)
    as (rows & Hrows & Heach).
  exists rows. eexists. split; [exact Heach|]. cbv zeta.
  split; [|split].
  - rewrite predict_closed, Hrows.
    unfold ok in *. cbv beta iota zeta. rewrite Hscaler. cbv beta iota.
    rewrite Hclf. reflexivity.
  - reflexivity.
  - apply length_map.
Qed.

Lemma two_components_have_rows :
  Forall (fun img => exists r,
              feature_row (sk := reference_skimage) (cv := reference_cv2)
                          initial_world 16 img = ok r)
         two_components.
Proof.
  pose proof two_components_valid as Hvalid.
  rewrite Forall_forall in *. intros img Hin.
  apply feature_row_exists.
  - exact nearest_resize_total.
  - exact (Nat.lt_0_succ 15).
  - apply Hvalid. exact Hin.
Qed.

Lemma lenient_scaler_total (X : option matrix) :
  transform lenient_scaler X = ok (matrix_or_empty X).
Proof. reflexivity. Qed.

Lemma one_label_classifier_answer (X' : matrix) :
  clf_predict one_label_classifier X' = ok (single_answer X').
Proof. reflexivity. Qed.

Lemma predict_returns_classifier_answer_witness :
  length two_components = 2%nat /\
  exists rows labels,
    Forall2 (fun img r =>
               feature_row (sk := reference_skimage) (cv := reference_cv2)
                           initial_world 16 img = ok r)
            two_components rows /\
    let X := fold_left Utils.vStackMatrices rows None in
    ComponentClassifier.predict (sk := reference_skimage)
      (cv := reference_cv2) label_names two_components
      one_label_classifier 16 lenient_scaler initial_world
    = (ok labels,
       after_calls initial_world
         [call_transform X; call_predict (matrix_or_empty X)]) /\
    labels = map label_names (single_answer (matrix_or_empty X)) /\
    length labels = 1%nat.
Proof.
  split; [reflexivity|].
  exact (predict_returns_classifier_answer (sk := reference_skimage)
           (cv := reference_cv2) label_names one_label_classifier
           lenient_scaler matrix_or_empty single_answer
           16 initial_world two_components
           two_components_have_rows lenient_scaler_total
           one_label_classifier_answer).
Defined.

Lemma vStackMatrices_all_rows (rows : list row) :
  rows <> [] -> fold_left Utils.vStackMatrices rows None = Some rows.
Proof.
  destruct rows as [|r rows]; [contradiction|].
  intros _. apply vStackMatrices_from_None.
Qed.

Lemma feature_rows_app {sk : skimage_filter} {cv : cv2_imgproc}
      (w : world) (nbins : nat) (A B : list bool_image)
      (rowsA rowsB : list row) :
  feature_rows w nbins A = ok rowsA ->
  feature_rows w nbins B = ok rowsB ->
  feature_rows w nbins (A ++ B) = ok (rowsA ++ rowsB).
Proof.
  revert rowsA. induction A as [|img A IH]; intros rowsA HA HB; simpl in *.
  - injection HA as <-. exact HB.
  - destruct (feature_row w nbins img) as [e|r]; [discriminate HA|].
    cbn [rbind] in *.
    destruct (feature_rows w nbins A) as [e|rows]; [discriminate HA|].
    cbn [rbind] in *. injection HA as <-.
    rewrite (IH rows eq_refl HB). reflexivity.
Qed.

(** With a scaler and a classifier that work row by row, classifying two
    batches in one call gives the labels of the first batch followed by
    the labels of the second: no image influences the label of
    another. *)
Theorem predict_of_concatenated_batches
  {sk : skimage_filter} {cv : cv2_imgproc}
  (map_label_to_str : Z -> string) (clf : Classifier) (scaler : Scaler)
  (scale_row : row -> row) (classify_row : row -> Z)
  (nbins : nat) (w : world) (A B : list bool_image)
  (scaler_by_row :
     forall X, transform scaler (Some X) = ok (map scale_row X))
  (clf_by_row : forall X, clf_predict clf X = ok (map classify_row X))
  (HA : Forall (fun img => exists r, feature_row w nbins img = ok r) A)
  (HB : Forall (fun img => exists r, feature_row w nbins img = ok r) B)
  (HAne : A <> []) (HBne : B <> []) :
  exists la lb wa wb wab,
    ComponentClassifier.predict map_label_to_str A clf nbins scaler w
    = (ok la, wa) /\
    ComponentClassifier.predict map_label_to_str B clf nbins scaler w
    = (ok lb, wb) /\
    ComponentClassifier.predict map_label_to_str (A ++ B) clf nbins scaler w
    = (ok (la ++ lb), wab) /\
    length la = length A /\ length lb = length B.
Proof.
  destruct (feature_rows_valid nbins w A HA) as (rowsA & HrA & HFA).
  destruct (feature_rows_valid nbins w B HB) as (rowsB & HrB & HFB).
  pose proof (feature_rows_app w nbins A B rowsA rowsB HrA HrB) as HrAB.
  pose proof (Forall2_length HFA) as HlA.
  pose proof (Forall2_length HFB) as HlB.
  assert (HneA : rowsA <> []).
  { intros ->. destruct A; [contradiction | discriminate HlA]. }
  assert (HneB : rowsB <> []).
  { intros ->. destruct B; [contradiction | discriminate HlB]. }
  assert (HneAB : rowsA ++ rowsB <> []).
  { intros Happ. apply app_eq_nil in Happ as (-> & _). contradiction. }
  exists (map map_label_to_str (map classify_row (map scale_row rowsA))).
  exists (map map_label_to_str (map classify_row (map scale_row rowsB))).
  do 3 eexists.
  split; [|split; [|split; [|split]]].
  - rewrite predict_closed, HrA. unfold ok in *. cbv beta iota zeta.
    rewrite (vStackMatrices_all_rows rowsA HneA), scaler_by_row.
    cbv beta iota. rewrite clf_by_row. reflexivity.
  - rewrite predict_closed, HrB. unfold ok in *. cbv beta iota zeta.
    rewrite (vStackMatrices_all_rows rowsB HneB), scaler_by_row.
    cbv beta iota. rewrite clf_by_row. reflexivity.
  - rewrite predict_closed, HrAB. unfold ok in *. cbv beta iota zeta.
    rewrite (vStackMatrices_all_rows _ HneAB), scaler_by_row.
    cbv beta iota. rewrite clf_by_row.
    rewrite !map_app. reflexivity.
  - rewrite !length_map. symmetry. exact HlA.
  - rewrite !length_map. symmetry. exact HlB.
Qed.

Lemma single_pixel_batch_nonempty : [[[true]]] <> ([] : list bool_image).
Proof. discriminate. Qed.

Lemma predict_of_concatenated_batches_witness :
  two_components <> [] /\ [[[true]]] <> ([] : list bool_image) /\
  exists la lb wa wb wab,
    ComponentClassifier.predict (sk := reference_skimage)
      (cv := reference_cv2) label_names two_components
      constant_classifier 16 identity_scaler initial_world = (ok la, wa) /\
    ComponentClassifier.predict (sk := reference_skimage)
      (cv := reference_cv2) label_names [[[true]]]
      constant_classifier 16 identity_scaler initial_world = (ok lb, wb) /\
    ComponentClassifier.predict (sk := reference_skimage)
      (cv := reference_cv2) label_names (two_components ++ [[[true]]])
      constant_classifier 16 identity_scaler initial_world
    = (ok (la ++ lb), wab) /\
    length la = 2%nat /\ length lb = 1%nat.
Proof.
  split; [exact two_components_nonempty|].
  split; [exact single_pixel_batch_nonempty|].
  exact (predict_of_concatenated_batches (sk := reference_skimage)
           (cv := reference_cv2) label_names constant_classifier
           identity_scaler (fun r => r) (fun _ => 0%Z) 16 initial_world
           two_components [[[true]]]
           identity_scaler_by_row constant_classifier_by_row
           two_components_have_rows single_pixel_has_row
           two_components_nonempty single_pixel_batch_nonempty).
Defined.

(** Whatever its arguments, [predict] leaves the class attributes as
    they were and makes at most one call on each object: none, or one
    [transform], or one [transform] followed by one [predict]. *)
Theorem predict_calls_each_capability_at_most_once
  {sk : skimage_filter} {cv : cv2_imgproc}
  (map_label_to_str : Z -> string) (images : list bool_image)
  (clf : Classifier) (nbins : nat) (scaler : Scaler) (w : world) :
  let w' := snd (ComponentClassifier.predict map_label_to_str images clf
                                             nbins scaler w) in
  FeatureExtraction_attrs w' = FeatureExtraction_attrs w /\
  exists made,
    calls w' = calls w ++ made /\
    (made = [] \/
     (exists X, made = [call_transform X]) \/
     (exists X X', made = [call_transform X; call_predict X'])).
Proof.
  cbv zeta. rewrite predict_closed.
  destruct (feature_rows w nbins images) as [e|rows].
  - split; [reflexivity|]. exists []. split; [|left; reflexivity].
    simpl. rewrite app_nil_r. reflexivity.
  - cbv zeta.
    destruct (transform scaler _) as [e|X'].
    + split; [reflexivity|]. eexists. split; [reflexivity|].
      right. left. eexists. reflexivity.
    + destruct (clf_predict clf X') as [e|y_pred];
        (split; [reflexivity|]; eexists; split; [reflexivity|];
         right; right; eexists; eexists; reflexivity).
Qed.

(** ** [straighten.darkness] *)

(** On an array without pixels, with no row or with rows of no column,
    [darkness] divides by [float(0)] and raises [ZeroDivisionError]. *)
Theorem darkness_of_no_pixels (line : image)
  (Hempty : length line = 0%nat \/ length (hd [] line) = 0%nat) :
  straighten.darkness line = inl straighten.ZeroDivisionError.
Proof.
  unfold straighten.darkness, shape.
  destruct Hempty as [-> | ->]; [reflexivity|].
  rewrite Nat.mul_0_r. reflexivity.
Qed.

Lemma darkness_of_no_pixels_witness :
  (length ([[]; []] : image) = 0%nat \/
   length (hd [] ([[]; []] : image)) = 0%nat) /\
  straighten.darkness [[]; []] = inl straighten.ZeroDivisionError.
Proof.
  split; [right; reflexivity|].
  exact (darkness_of_no_pixels [[]; []] (or_intror eq_refl)).
Defined.

(** ** Translation invariance of the Hu features *)





Lemma power_sum_ext {A : Type} (f g : A -> R) (k : nat)
      (l : list (nat * A)) :
  (forall a, f a = g a) -> power_sum f k l = power_sum g k l.
Proof.
  intros Hfg. unfold power_sum. f_equal. apply map_ext.
  intros t. rewrite Hfg. reflexivity.
Qed.


Lemma power_sum_scal {A : Type} (c : R) (f : A -> R) (k : nat)
      (l : list (nat * A)) :
  power_sum (fun a => c * f a) k l = c * power_sum f k l.
Proof.
  unfold power_sum, cv2.Rsum.
  induction l as [|t l IH]; cbn [map fold_right]; [lra|].
  rewrite IH. ring.
Qed.


Lemma combine_map_right {A B : Type} (f : A -> B) (idx : list nat)
      (l : list A) :
  combine idx (map f l) = map (fun t => (fst t, f (snd t))) (combine idx l).
Proof.
  revert idx. induction l as [|a l IH]; intros [|i idx]; simpl; auto.
  rewrite IH. reflexivity.
Qed.

Lemma row_moment_power_sum (p : nat) (r : list R) :
  cv2.row_moment p r
  = power_sum (fun v => v) p (combine (seq 0 (length r)) r).
Proof. reflexivity. Qed.

Lemma spatial_moment_power_sum (p q : nat) (img : image) :
  cv2.spatial_moment p q img
  = power_sum (cv2.row_moment p) q (combine (seq 0 (length img)) img).
Proof. reflexivity. Qed.








Lemma DBL_EPSILON_pos : 0 < cv2.DBL_EPSILON.
Proof.
  unfold cv2.DBL_EPSILON. apply Rinv_0_lt_compat. apply pow_lt. lra.
Qed.

Lemma ink_mass_nonzero (m : R) : cv2.DBL_EPSILON < Rabs m -> m <> 0.
Proof.
  intros Hm Hz. subst m. rewrite Rabs_R0 in Hm.
  pose proof DBL_EPSILON_pos. lra.
Qed.








Lemma two_pixels_ink_mass :
  cv2.DBL_EPSILON < Rabs (cv2.spatial_moment 0 0 [[1; 1]]).
Proof.
  unfold cv2.spatial_moment, cv2.row_moment, cv2.Rsum. simpl.
  pose proof DBL_EPSILON_lt_1.
  rewrite Rabs_right; lra.
Qed.


(** ** Quarter turns, and enlargement by pixel replication *)



































(** ** Dependence of the Hu features on the intensity scale *)

Lemma power_sum_map_snd {A B : Type} (g : A -> B) (wt : B -> R) (k : nat)
      (l : list (nat * A)) :
  power_sum wt k (map (fun t => (fst t, g (snd t))) l)
  = power_sum (fun a => wt (g a)) k l.
Proof. unfold power_sum. rewrite map_map. reflexivity. Qed.

Lemma row_moment_scale (gain : R) (p : nat) (r : list R) :
  cv2.row_moment p (map (fun v => gain * v) r) = gain * cv2.row_moment p r.
Proof.
  rewrite !row_moment_power_sum, length_map, combine_map_right.
  rewrite power_sum_map_snd. apply power_sum_scal.
Qed.

Lemma spatial_moment_scale (gain : R) (p q : nat) (img : image) :
  cv2.spatial_moment p q (scale_intensity gain img)
  = gain * cv2.spatial_moment p q img.
Proof.
  unfold scale_intensity.
  rewrite !spatial_moment_power_sum, length_map, combine_map_right.
  rewrite power_sum_map_snd, <- power_sum_scal.
  apply power_sum_ext. intros r. apply row_moment_scale.
Qed.

(** The first raw Hu moment of an image whose pixels are multiplied by
    [gain] is the original one divided by [gain]. *)
Lemma HuMoments_first_scale (gain : R) (img : image) :
  0 < gain ->
  cv2.DBL_EPSILON < Rabs (cv2.spatial_moment 0 0 img) ->
  cv2.DBL_EPSILON < Rabs (gain * cv2.spatial_moment 0 0 img) ->
  nth 0 (cv2.HuMoments (cv2.moments (scale_intensity gain img))) 0
  = nth 0 (cv2.HuMoments (cv2.moments img)) 0 / gain.
Proof.
  intros Hgain Hmass Hmass'. pose proof (ink_mass_nonzero _ Hmass) as Hnz.
  unfold cv2.HuMoments, cv2.moments. cbv zeta.
  cbn [nth cv2.nu20 cv2.nu02].
  rewrite !spatial_moment_scale.
  generalize dependent (cv2.spatial_moment 0 0 img).
  generalize (cv2.spatial_moment 1 0 img) (cv2.spatial_moment 0 1 img)
    (cv2.spatial_moment 2 0 img) (cv2.spatial_moment 0 2 img).
  intros m10 m01 m20 m02 m00 Hmass Hmass' Hnz.
  destruct (Rlt_dec cv2.DBL_EPSILON (Rabs m00)) as [_|Hn];
    [|contradiction].
  destruct (Rlt_dec cv2.DBL_EPSILON (Rabs (gain * m00))) as [_|Hn];
    [|contradiction].
  field. split; lra.
Qed.

(** The Hu features depend on the intensity scale of the image: when
    every pixel is multiplied by [gain > 0], the first feature moves by
    [sign(h) * log10(gain)], [h] being the first raw Hu moment.  The same
    mask as a 0/1 array and as a 0/255 array therefore gives features
    that differ by [log10(255)]. *)
Theorem moments_hu_depends_on_intensity_scale
  (gain : R) (img : image) (h : R)
  (Hgain : 0 < gain)
  (Hmass : cv2.DBL_EPSILON < Rabs (cv2.spatial_moment 0 0 img))
  (Hmass' : cv2.DBL_EPSILON < Rabs (gain * cv2.spatial_moment 0 0 img))
  (Hraw : nth_error (cv2.HuMoments (cv2.moments img)) 0 = Some h)
  (Hh : h <> 0) :
  exists y,
    nth_error (FeatureExtraction.moments_hu img) 0 = Some (Fin y) /\
    nth_error (FeatureExtraction.moments_hu (scale_intensity gain img)) 0
    = Some (Fin (y + Rsign h * (ln gain / ln 10))).
Proof.
  pose proof (HuMoments_first_scale gain img Hgain Hmass Hmass') as Hscale.
  assert (Hh0 : nth 0 (cv2.HuMoments (cv2.moments img)) 0 = h).
  { unfold cv2.HuMoments in *. cbn [nth nth_error] in *.
    injection Hraw as <-. reflexivity. }
  rewrite Hh0 in Hscale.
  assert (Hraw' : nth_error (cv2.HuMoments
                               (cv2.moments (scale_intensity gain img))) 0
                  = Some (h / gain)).
  { rewrite <- Hscale. unfold cv2.HuMoments. reflexivity. }
  assert (Hquot : h / gain <> 0).
  { unfold Rdiv. apply Rmult_integral_contrapositive_currified;
      [exact Hh | apply Rinv_neq_0_compat; lra]. }
  exists (- Rsign h * (ln (Rabs h) / ln 10)).
  unfold FeatureExtraction.moments_hu, FeatureExtraction.log_trans.
  rewrite !nth_error_map, Hraw, Hraw'. cbn [option_map].
  rewrite !log_trans_component.
  destruct (Req_dec_T h 0); [contradiction|].
  destruct (Req_dec_T (h / gain) 0); [contradiction|].
  split; [reflexivity|]. do 2 f_equal.
  assert (Hsign : Rsign (h / gain) = Rsign h).
  { pose proof (Rinv_0_lt_compat gain Hgain) as Hinv.
    destruct (Rtotal_order h 0) as [Hneg | [Hz | Hpos]]; [|contradiction|].
    - rewrite (Rsign_neg h Hneg). apply Rsign_neg. unfold Rdiv. nra.
    - rewrite (Rsign_pos h Hpos). apply Rsign_pos. unfold Rdiv. nra. }
  rewrite Hsign.
  assert (Habs : Rabs (h / gain) = Rabs h * / gain).
  { unfold Rdiv. rewrite Rabs_mult, Rabs_inv, (Rabs_right gain) by lra.
    reflexivity. }
  rewrite Habs, ln_mult, ln_Rinv;
    [ | exact Hgain | apply Rabs_pos_lt; exact Hh
      | apply Rinv_0_lt_compat; exact Hgain ].
  pose proof ln_10_pos as H10.
  field. lra.
Qed.

Lemma gain_255_pos : 0 < 255.
Proof. lra. Qed.

Lemma two_pixels_ink_mass_scaled :
  cv2.DBL_EPSILON < Rabs (255 * cv2.spatial_moment 0 0 [[1; 1]]).
Proof.
  unfold cv2.spatial_moment, cv2.row_moment, cv2.Rsum. simpl.
  pose proof DBL_EPSILON_lt_1.
  rewrite Rabs_right; lra.
Qed.

Lemma moments_hu_depends_on_intensity_scale_witness :
  0 < 255 /\
  nth_error (cv2.HuMoments (cv2.moments [[1; 1]])) 0 = Some (1 / 8) /\
  scale_intensity 255 [[1; 1]] = [[255 * 1; 255 * 1]] /\
  exists y,
    nth_error (FeatureExtraction.moments_hu [[1; 1]]) 0 = Some (Fin y) /\
    nth_error (FeatureExtraction.moments_hu [[255 * 1; 255 * 1]]) 0
    = Some (Fin (y + Rsign (1 / 8) * (ln 255 / ln 10))).
Proof.
  split; [exact gain_255_pos|].
  split; [exact HuMoments_two_pixels_first|].
  split; [reflexivity|].
  exact (moments_hu_depends_on_intensity_scale 255 [[1; 1]] (1 / 8)
           gain_255_pos two_pixels_ink_mass two_pixels_ink_mass_scaled
           HuMoments_two_pixels_first one_eighth_nonzero).
Defined.

(** ** Every pixel falls in exactly one bin *)



















(** ** The matrix handed to the scaler *)

Lemma feature_row_length {sk : skimage_filter} {cv : cv2_imgproc}
      (w : world) (nbins : nat) (img : bool_image) (r : row) :
  (1 <= nbins)%nat -> feature_row w nbins img = ok r ->
  length r = (7 + nbins)%nat.
Proof.
  intros Hbins. unfold feature_row.
  destruct (Preprocessing.standardize_shape
              (ComponentClassifier.as_int16 img)) as [e|im];
    [discriminate|].
  cbn [rbind].
  destruct (moments_nbins_ok im nbins w Hbins) as (features & Hrun & Hlen).
  rewrite Hrun. cbn [fst]. intros H. injection H as <-. exact Hlen.
Qed.

(** For a non-empty batch of non-degenerate images and [nbins >= 1], the
    first call [predict] makes is [scaler.transform] on a matrix with one
    row per image and [7 + nbins] columns, whatever the scaler and the
    classifier then do. *)
Theorem predict_feature_matrix_shape
  {sk : skimage_filter} {cv : cv2_imgproc}
  (map_label_to_str : Z -> string) (clf : Classifier) (scaler : Scaler)
  (resize_total :
     forall (src : image) (wd ht : Z),
       non_degenerate src -> (0 < wd)%Z -> (0 < ht)%Z ->
       exists dst, cv2_resize src (wd, ht) = ok dst)
  (images : list bool_image) (nbins : nat) (w : world)
  (Hnonempty : images <> [])
  (Hvalid : Forall non_degenerate images)
  (Hbins : (1 <= nbins)%nat) :
  exists rows later,
    calls (snd (ComponentClassifier.predict map_label_to_str images clf
                                            nbins scaler w))
    = calls w ++ call_transform (Some rows) :: later /\
    length rows = length images /\
    Forall (fun r => length r = (7 + nbins)%nat) rows.
Proof.
  assert (Hrows : Forall (fun img => exists r,
                              feature_row w nbins img = ok r) images).
  { rewrite Forall_forall in *. intros img Hin.
    apply feature_row_exists; auto. }
  destruct (feature_rows_valid nbins w images Hrows) as (rows & Hfr & HF).
  pose proof (Forall2_length HF) as Hlen.
  assert (Hne : rows <> []).
  { intros ->. destruct images; [contradiction | discriminate Hlen]. }
  assert (Hwidth : Forall (fun r => length r = (7 + nbins)%nat) rows).
  { clear - HF Hbins. induction HF as [|img r images rows Hr _ IH];
      constructor; [|exact IH].
    exact (feature_row_length w nbins img r Hbins Hr). }
  rewrite predict_closed, Hfr. unfold ok. cbv beta iota zeta.
  rewrite (vStackMatrices_all_rows rows Hne).
  exists rows.
  destruct (transform scaler (Some rows)) as [e|X'].
  - exists []. repeat split; auto.
  - destruct (clf_predict clf X') as [e|y_pred];
      exists [call_predict X']; repeat split; auto.
Qed.

Lemma predict_feature_matrix_shape_witness :
  two_components <> [] /\ Forall non_degenerate two_components /\
  (1 <= 16)%nat /\
  exists rows later,
    calls (snd (ComponentClassifier.predict (sk := reference_skimage)
                  (cv := reference_cv2) label_names two_components
                  constant_classifier 16 failing_scaler initial_world))
    = calls initial_world ++ call_transform (Some rows) :: later /\
    length rows = 2%nat /\
    Forall (fun r => length r = 23%nat) rows.
Proof.
  split; [exact two_components_nonempty|].
  split; [exact two_components_valid|].
  split; [exact (Nat.lt_0_succ 15)|].
  exact (predict_feature_matrix_shape (sk := reference_skimage)
           (cv := reference_cv2) label_names constant_classifier
           failing_scaler nearest_resize_total two_components 16
           initial_world two_components_nonempty two_components_valid
           (Nat.lt_0_succ 15)).
Defined.

(** ** A mask without ink *)

Lemma nth_of_blank (img : image) (r c : nat) :
  flat_image img 0 -> nth c (nth r img []) 0 = 0.
Proof.
  unfold flat_image. intros Hflat.
  destruct (nth_in_or_default r img []) as [Hrow | ->].
  - rewrite Forall_forall in Hflat. pose proof (Hflat _ Hrow) as Hr.
    destruct (nth_in_or_default c (nth r img []) 0) as [Hpix | ->];
      [|reflexivity].
    rewrite Forall_forall in Hr. apply Hr. exact Hpix.
  - destruct c; reflexivity.
Qed.

Lemma nearest_resize_of_blank (img im : image) (dsize : Z * Z) :
  flat_image img 0 -> nearest_resize img dsize = ok im -> flat_image im 0.
Proof.
  intros Hflat. unfold nearest_resize. destruct dsize as [wd ht].
  destruct (length img); [discriminate|].
  destruct (length (hd [] img)); [discriminate|].
  destruct ((0 <? wd)%Z && (0 <? ht)%Z); [|discriminate].
  intros H. injection H as <-.
  unfold flat_image. rewrite Forall_forall. intros line Hline.
  apply in_map_iff in Hline as (r & <- & _).
  rewrite Forall_forall. intros p Hp.
  apply in_map_iff in Hp as (c & <- & _).
  apply nth_of_blank. exact Hflat.
Qed.

Lemma as_int16_of_blank (img : bool_image) :
  Forall (Forall (fun b => b = false)) img ->
  flat_image (ComponentClassifier.as_int16 img) 0.
Proof.
  unfold flat_image, ComponentClassifier.as_int16. intros Hblank.
  rewrite Forall_forall in *. intros line Hline.
  apply in_map_iff in Hline as (bline & <- & Hin).
  pose proof (Hblank _ Hin) as Hb. rewrite Forall_forall in *.
  intros p Hp. apply in_map_iff in Hp as (b & <- & Hbin).
  rewrite (Hb b Hbin). reflexivity.
Qed.

(** A mask without ink gives a feature row that starts with seven nan:
    when the standardised image of a component is blank, as the resize of
    a blank mask is, the seven Hu features [predict] computes for that
    component are all nan. *)
Theorem feature_row_of_blank_component
  {sk : skimage_filter} {cv : cv2_imgproc}
  (w : world) (nbins : nat) (img : bool_image) (im : image)
  (Hbins : (1 <= nbins)%nat)
  (Hresize : Preprocessing.standardize_shape
               (ComponentClassifier.as_int16 img) = ok im)
  (Hblank : flat_image im 0) :
  exists r,
    feature_row w nbins img = ok r /\
    length r = (7 + nbins)%nat /\
    firstn 7 r = [NaN; NaN; NaN; NaN; NaN; NaN; NaN].
Proof.
  unfold feature_row. rewrite Hresize. cbn [rbind ok].
  rewrite moments_nbins_run, mean_exposure_hist_from_gabor_run.
  cbv zeta. cbn [fst].
  set (a := FeatureExtraction_attrs w).
  destruct (mean_exposure_hist_ok nbins
              (Preprocessing.frontslash_filter im (denom a) (freq a) (bw a))
              [Preprocessing.backslash_filter im (denom a) (freq a) (bw a)]
              Hbins)
    as (mean & Hmean & Hlen).
  rewrite Hmean. eexists. split; [reflexivity|].
  rewrite (moments_hu_blank im Hblank). unfold np.hstack.
  split.
  - cbn [length app]. rewrite length_map, Hlen. reflexivity.
  - reflexivity.
Qed.

Lemma blank_mask_standardised :
  exists im,
    Preprocessing.standardize_shape (cv := reference_cv2)
      (ComponentClassifier.as_int16 [[false; false]]) = ok im /\
    flat_image im 0.
Proof.
  assert (Hblank : flat_image (ComponentClassifier.as_int16 [[false; false]])
                              0).
  { apply as_int16_of_blank. repeat constructor. }
  assert (Hvalid : non_degenerate
                     (ComponentClassifier.as_int16 [[false; false]])).
  { unfold non_degenerate. simpl. repeat constructor. }
  destruct (nearest_resize_shape _ 64%Z 38%Z Hvalid eq_refl eq_refl)
    as (im & Him & _).
  exists im. split.
  - rewrite standardize_shape_dsize. exact Him.
  - exact (nearest_resize_of_blank _ im _ Hblank Him).
Qed.

Lemma feature_row_of_blank_component_witness :
  (1 <= 16)%nat /\
  exists r,
    feature_row (sk := reference_skimage) (cv := reference_cv2)
                initial_world 16 [[false; false]] = ok r /\
    length r = 23%nat /\
    firstn 7 r = [NaN; NaN; NaN; NaN; NaN; NaN; NaN].
Proof.
  split; [exact (Nat.lt_0_succ 15)|].
  destruct blank_mask_standardised as (im & Him & Hflat).
  exact (feature_row_of_blank_component (sk := reference_skimage)
           (cv := reference_cv2) initial_world 16 [[false; false]] im
           (Nat.lt_0_succ 15) Him Hflat).
Defined.

(** ** [binary_from_laplacian] on a uniform image *)

Lemma borderInterpolate_in_range (p : Z) (len : nat) :
  (1 <= len)%nat -> (-1 <= p <= Z.of_nat len)%Z ->
  (imgproc.borderInterpolate p len < len)%nat.
Proof.
  intros Hlen Hp. unfold imgproc.borderInterpolate.
  destruct (Nat.eqb_spec len 1) as [->|Hne]; [lia|].
  destruct (Z.ltb_spec p 0); [lia|].
  destruct (Z.leb_spec (Z.of_nat len) p); lia.
Qed.

Lemma at_border_uniform (img : image) (v : R) (y x : Z) :
  non_degenerate img -> flat_image img v ->
  (-1 <= y <= Z.of_nat (length img))%Z ->
  (-1 <= x <= Z.of_nat (length (hd [] img)))%Z ->
  imgproc.at_border img y x = v.
Proof.
  intros (Hrows & Hcols & Hrect) Hflat Hy Hx. unfold imgproc.at_border.
  pose proof (borderInterpolate_in_range y (length img) Hrows Hy) as Hi.
  pose proof (borderInterpolate_in_range x _ Hcols Hx) as Hj.
  set (i := imgproc.borderInterpolate y (length img)) in *.
  set (j := imgproc.borderInterpolate x (length (hd [] img))) in *.
  assert (Hrow : In (nth i img []) img) by (apply nth_In; exact Hi).
  unfold flat_image in Hflat. rewrite Forall_forall in Hflat, Hrect.
  pose proof (Hflat _ Hrow) as Hline. rewrite Forall_forall in Hline.
  apply Hline. apply nth_In. rewrite (Hrect _ Hrow). exact Hj.
Qed.

Lemma map_seq_constant {A : Type} (f : nat -> A) (c : A) (n : nat) :
  (forall k, (k < n)%nat -> f k = c) -> map f (seq 0 n) = repeat c n.
Proof.
  intros Hf. transitivity (map (fun _ => c) (seq 0 n)).
  - apply map_ext_in. intros k Hk. apply in_seq in Hk. apply Hf. lia.
  - clear. generalize 0%nat. induction n as [|n IH]; intros s; simpl;
      [reflexivity|].
    rewrite IH. reflexivity.
Qed.

(** The Laplacian of a uniform image is zero everywhere. *)
Lemma Laplacian_of_uniform (img : image) (v : R) :
  non_degenerate img -> flat_image img v ->
  imgproc.Laplacian img = zeros (length img) (length (hd [] img)).
Proof.
  intros Hvalid Hflat. unfold imgproc.Laplacian, zeros.
  apply map_seq_constant. intros r Hr.
  apply map_seq_constant. intros c Hc. cbv zeta.
  rewrite !(at_border_uniform img v) by (auto; lia).
  ring.
Qed.

(** On a uniform image [binary_from_laplacian] does not see the image's
    brightness: the Laplacian is zero everywhere, so the result is that
    of [binary_from_thresh] on the array of zeros of the same shape, be
    it Otsu's exception on a flat image or a uniform mask. *)
Theorem binary_from_laplacian_of_uniform {sk : skimage_filter}
  (img : image) (v : R)
  (Hvalid : non_degenerate img) (Hflat : flat_image img v) :
  binary_from_laplacian img
  = Preprocessing.binary_from_thresh
      (zeros (length img) (length (hd [] img))).
Proof.
  unfold binary_from_laplacian. cbv zeta.
  rewrite (Laplacian_of_uniform img v Hvalid Hflat). reflexivity.
Qed.

Lemma binary_from_laplacian_of_uniform_witness :
  non_degenerate [[5; 5]; [5; 5]] /\ flat_image [[5; 5]; [5; 5]] 5 /\
  binary_from_laplacian (sk := reference_skimage) [[5; 5]; [5; 5]]
  = Preprocessing.binary_from_thresh (sk := reference_skimage)
      [[0; 0]; [0; 0]].
Proof.
  split; [exact uniform_five_non_degenerate|].
  split; [exact uniform_five_flat|].
  exact (binary_from_laplacian_of_uniform (sk := reference_skimage)
           [[5; 5]; [5; 5]] 5 uniform_five_non_degenerate
           uniform_five_flat).
Defined.
